(** * Employees-Dashboard: the job_tracker backend

    A shallow embedding of the Django application [job_tracker]
    (models.py, serializers.py, views.py) and the properties of its
    aggregation queries, transitions, cascade deletes and serializers.

    The database is an explicit value threaded through every view; a table
    is a finite map from primary key to row.  What Django and Django REST
    Framework do on behalf of the source (auto_now fields, CASCADE
    collection, ModelSerializer field generation, get_object) is written
    out next to the source line that relies on it. *)

From stdpp Require Import base option list gmap strings sorting.

Open Scope string_scope.
Open Scope Z_scope.

(** A [DateTimeField] value; only its order and equality matter here. *)
Abbreviation datetime := Z (only parsing).

(** ** models.py *)

Module JobSite.

Definition SITE_TYPES : list (string * string) :=
  [ ("job_board", "Job Board");
    ("company",   "Company Site");
    ("challenge", "Code Challenge");
    ("freelance", "Freelance") ].

Definition COUNTRIES : list (string * string) :=
  [ ("BR",    "Brazil");
    ("US",    "United States");
    ("CA",    "Canada");
    ("UK",    "United Kingdom");
    ("DE",    "Germany");
    ("FR",    "France");
    ("ES",    "Spain");
    ("PT",    "Portugal");
    ("OTHER", "Other") ].

Definition LANGUAGES : list (string * string) :=
  [ ("pt",    "Portuguese");
    ("en",    "English");
    ("es",    "Spanish");
    ("fr",    "French");
    ("de",    "German");
    ("other", "Other") ].

Definition WORK_AREAS : list (string * string) :=
  [ ("tech",      "Technology");
    ("design",    "Design");
    ("marketing", "Marketing");
    ("sales",     "Sales");
    ("finance",   "Finance");
    ("hr",        "Human Resources");
    ("general",   "General") ].

Record t := mk {
  name         : string;
  url          : string;
  site_type    : string;
  country      : string;
  language     : string;
  work_area    : string;
  description  : string;
  is_completed : bool;
  visited      : bool;
  created_at   : datetime;
  updated_at   : datetime
}.

Definition set_visited (b : bool) (s : t) : t :=
  mk (name s) (url s) (site_type s) (country s) (language s) (work_area s)
     (description s) (is_completed s) b (created_at s) (updated_at s).

Definition set_is_completed (b : bool) (s : t) : t :=
  mk (name s) (url s) (site_type s) (country s) (language s) (work_area s)
     (description s) b (visited s) (created_at s) (updated_at s).

Definition set_created_at (d : datetime) (s : t) : t :=
  mk (name s) (url s) (site_type s) (country s) (language s) (work_area s)
     (description s) (is_completed s) (visited s) d (updated_at s).

Definition set_updated_at (d : datetime) (s : t) : t :=
  mk (name s) (url s) (site_type s) (country s) (language s) (work_area s)
     (description s) (is_completed s) (visited s) (created_at s) d.

(** [JobSite()] with no arguments: every field at its default. *)
Definition defaults : t := mk "" "" "" "" "" "" "" false false 0 0.

End JobSite.

Module JobApplication.

Definition STATUS_CHOICES : list (string * string) :=
  [ ("applied",   "Applied");
    ("interview", "Interview");
    ("rejected",  "Rejected");
    ("accepted",  "Accepted");
    ("pending",   "Pending");
    ("archived",  "Archived") ].

Record t := mk {
  job_site     : Z;
  position     : string;
  company      : string;
  job_url      : string;
  description  : string;
  salary_range : string;
  status       : string;
  applied_date : datetime;
  notes        : string;
  is_archived  : bool
}.

Definition set_is_archived (b : bool) (a : t) : t :=
  mk (job_site a) (position a) (company a) (job_url a) (description a)
     (salary_range a) (status a) (applied_date a) (notes a) b.

Definition set_applied_date (d : datetime) (a : t) : t :=
  mk (job_site a) (position a) (company a) (job_url a) (description a)
     (salary_range a) (status a) d (notes a) (is_archived a).

(** [JobApplication()] with no arguments; [job_site] is unset. *)
Definition defaults : t := mk 0 "" "" "" "" "" "applied" 0 "" false.

End JobApplication.

Module ApplicationTimeline.

Definition EVENT_TYPES : list (string * string) :=
  [ ("applied",             "Application Sent");
    ("viewed",              "Resume Viewed");
    ("interview_scheduled", "Interview Scheduled");
    ("interview_completed", "Interview Completed");
    ("feedback",            "Feedback Received");
    ("rejected",            "Rejected");
    ("accepted",            "Accepted");
    ("other",               "Other") ].

Record t := mk {
  application : Z;
  event_type  : string;
  title       : string;
  description : string;
  date        : datetime
}.

Definition set_date (d : datetime) (e : t) : t :=
  mk (application e) (event_type e) (title e) (description e) d.

(** [ApplicationTimeline()] with no arguments; [application] is unset. *)
Definition defaults : t := mk 0 "" "" "" 0.

End ApplicationTimeline.

(** ** The database

    One table per model, keyed by the automatic [id] column.  The backend
    in settings.py is SQLite, where Django declares [id] as
    [integer PRIMARY KEY AUTOINCREMENT]: a new row gets one more than the
    largest id the table ever handed out, kept in [sqlite_sequence]. *)

Record DB := mkDB {
  job_sites             : gmap Z JobSite.t;
  job_applications      : gmap Z JobApplication.t;
  application_timelines : gmap Z ApplicationTimeline.t;
  seq_job_site             : Z;
  seq_job_application      : Z;
  seq_application_timeline : Z
}.

Definition empty_db : DB := mkDB ∅ ∅ ∅ 0 0 0.

Definition with_job_sites (m : gmap Z JobSite.t) (db : DB) : DB :=
  mkDB m (job_applications db) (application_timelines db)
       (seq_job_site db) (seq_job_application db) (seq_application_timeline db).

Definition with_job_applications (m : gmap Z JobApplication.t) (db : DB) : DB :=
  mkDB (job_sites db) m (application_timelines db)
       (seq_job_site db) (seq_job_application db) (seq_application_timeline db).

Definition with_application_timelines (m : gmap Z ApplicationTimeline.t) (db : DB)
  : DB :=
  mkDB (job_sites db) (job_applications db) m
       (seq_job_site db) (seq_job_application db) (seq_application_timeline db).

(** ** Responses and the view monad

    A view either returns a body or raises; both leave a database behind.
    [Http404] is what [get_object] raises, [ValidationError] what
    [serializer.is_valid(raise_exception=True)] raises (an HTTP 400 whose
    body is keyed by the names of the offending fields). *)

Inductive APIException :=
  | Http404
  | ValidationError (errors : list string).

Inductive result (A : Type) :=
  | Ok (a : A)
  | Raise (e : APIException).
Arguments Ok {A} a.
Arguments Raise {A} e.

Definition View (A : Type) : Type := DB → result A * DB.

Global Instance View_ret : MRet View := λ A a db, (Ok a, db).
Global Instance View_bind : MBind View := λ A B f m db,
  match m db with
  | (Ok a, db') => f a db'
  | (Raise e, db') => (Raise e, db')
  end.

Definition raise {A} (e : APIException) : View A := λ db, (Raise e, db).
Definition query {A} (q : DB → A) : View A := λ db, (Ok (q db), db).
Definition execute (f : DB → DB) : View unit := λ db, (Ok tt, f db).

(** ** The ORM calls the source makes

    A model instance is a primary key with its row.  [Model.objects.all()]
    enumerates a table (SQL leaves the order open when nothing asks for
    one), [.filter(...)] keeps the rows satisfying a condition, [.count()]
    is the number of rows and [.order_by('-f')] sorts descending by [f]. *)

Definition objects_all {A} (table : gmap Z A) : list (Z * A) := map_to_list table.

Definition count {A} (qs : list A) : Z := Z.of_nat (length qs).

Definition descending {A} (key : A → datetime) : relation A :=
  λ x y, key y ≤ key x.

Global Instance descending_dec {A} (key : A → datetime) (x y : A) :
  Decision (descending key x y) := Z_le_dec (key y) (key x).

Definition order_by_desc {A} (key : A → datetime) (qs : list A) : list A :=
  merge_sort (descending key) qs.

(** [values(col).annotate(count=Count(col))] on a column that is never
    NULL: [SELECT col, COUNT(col) ... GROUP BY col], one row per distinct
    value with the number of rows holding it.  (A model's [Meta.ordering]
    takes no part in a GROUP BY query.) *)
Definition values_annotate_count (col : list string) : list (string * Z) :=
  (λ v, (v, count (filter (λ x, x = v) col))) <$> remove_dups col.

(** [get_object_or_404(queryset, pk=pk)] as [GenericAPIView.get_object]
    calls it; a [pk] that is not a number matches no row either. *)
Definition get_object {A} (table : DB → gmap Z A) (pk : Z) : View A :=
  λ db, match table db !! pk with
        | Some obj => (Ok obj, db)
        | None => (Raise Http404, db)
        end.

(** [instance.save()] on a row that [get_object] has just read: an UPDATE
    of that row.  [auto_now=True] makes [pre_save] overwrite [updated_at]
    with the current time on every save; [auto_now_add=True] fields are set
    on insert only. *)
Definition JobSite_save (now : datetime) (pk : Z) (site : JobSite.t)
  : View (Z * JobSite.t) :=
  λ db, let site := JobSite.set_updated_at now site in
        (Ok (pk, site), with_job_sites (<[pk := site]> (job_sites db)) db).

Definition JobApplication_save (pk : Z) (application : JobApplication.t)
  : View (Z * JobApplication.t) :=
  λ db, (Ok (pk, application),
         with_job_applications (<[pk := application]> (job_applications db)) db).

Definition ApplicationTimeline_save (pk : Z) (event : ApplicationTimeline.t)
  : View (Z * ApplicationTimeline.t) :=
  λ db, (Ok (pk, event),
         with_application_timelines (<[pk := event]> (application_timelines db)) db).

(** [Model.objects.create(...)]: an INSERT under the next id of the
    table's sequence; [pre_save] stamps the [auto_now_add] and [auto_now]
    fields with the current time. *)
Definition JobSite_create (now : datetime) (site : JobSite.t)
  : View (Z * JobSite.t) :=
  λ db, let pk := seq_job_site db + 1 in
        let site := JobSite.set_updated_at now (JobSite.set_created_at now site) in
        (Ok (pk, site),
         mkDB (<[pk := site]> (job_sites db)) (job_applications db)
              (application_timelines db)
              pk (seq_job_application db) (seq_application_timeline db)).

Definition JobApplication_create (now : datetime) (application : JobApplication.t)
  : View (Z * JobApplication.t) :=
  λ db, let pk := seq_job_application db + 1 in
        let application := JobApplication.set_applied_date now application in
        (Ok (pk, application),
         mkDB (job_sites db) (<[pk := application]> (job_applications db))
              (application_timelines db)
              (seq_job_site db) pk (seq_application_timeline db)).

Definition ApplicationTimeline_create (now : datetime) (event : ApplicationTimeline.t)
  : View (Z * ApplicationTimeline.t) :=
  λ db, let pk := seq_application_timeline db + 1 in
        let event := ApplicationTimeline.set_date now event in
        (Ok (pk, event),
         mkDB (job_sites db) (job_applications db)
              (<[pk := event]> (application_timelines db))
              (seq_job_site db) (seq_job_application db) pk).

(** [instance.delete()]: the deletion collector follows every
    [on_delete=models.CASCADE] foreign key that points at a collected row
    (JobApplication.job_site, ApplicationTimeline.application), then
    removes all collected rows at once. *)
Definition collect_applications (sites : gmap Z JobSite.t) (db : DB)
  : gmap Z JobApplication.t :=
  filter (λ r, is_Some (sites !! JobApplication.job_site r.2)) (job_applications db).

Definition collect_timelines (applications : gmap Z JobApplication.t) (db : DB)
  : gmap Z ApplicationTimeline.t :=
  filter (λ r, is_Some (applications !! ApplicationTimeline.application r.2))
         (application_timelines db).

Definition JobSite_delete (pk : Z) (site : JobSite.t) : View unit :=
  execute (λ db,
    let sites := {[ pk := site ]} in
    let applications := collect_applications sites db in
    let events := collect_timelines applications db in
    mkDB (job_sites db ∖ sites) (job_applications db ∖ applications)
         (application_timelines db ∖ events)
         (seq_job_site db) (seq_job_application db) (seq_application_timeline db)).

Definition JobApplication_delete (pk : Z) (application : JobApplication.t)
  : View unit :=
  execute (λ db,
    let applications := {[ pk := application ]} in
    let events := collect_timelines applications db in
    mkDB (job_sites db) (job_applications db ∖ applications)
         (application_timelines db ∖ events)
         (seq_job_site db) (seq_job_application db) (seq_application_timeline db)).

Definition ApplicationTimeline_delete (pk : Z) (event : ApplicationTimeline.t)
  : View unit :=
  execute (λ db,
    with_application_timelines (application_timelines db ∖ {[ pk := event ]}) db).

(** The reverse managers declared by [related_name]: [site.applications]
    and [application.timeline].  Iterating [application.timeline.all()]
    applies the [Meta.ordering] of ApplicationTimeline, ['-date']. *)
Definition JobSite_applications (db : DB) (site_pk : Z)
  : list (Z * JobApplication.t) :=
  filter (λ r, JobApplication.job_site r.2 = site_pk)
         (objects_all (job_applications db)).

Definition JobApplication_timeline (db : DB) (application_pk : Z)
  : list (Z * ApplicationTimeline.t) :=
  order_by_desc (λ r, ApplicationTimeline.date r.2)
    (filter (λ r, ApplicationTimeline.application r.2 = application_pk)
            (objects_all (application_timelines db))).

(** ** serializers.py

    The three serializers are ModelSerializers with [fields = '__all__'].
    The fields the framework builds for them follow from the model:
    - a field with [blank=True] or a default is not required;
    - [auto_now_add] and [auto_now] fields are not editable, hence
      read-only, as are [id] and the fields declared [read_only=True]
      or as SerializerMethodField;
    - a field with [choices] accepts exactly the listed values;
    - a foreign key is a PrimaryKeyRelatedField over all rows of the
      target model, which rejects a primary key that matches no row.

    What a CharField or URLField accepts as text (trimming, length,
    URL syntax) is the framework's business and is left open here. *)

Class RestFramework := {
  CharField : option nat → bool → string → option string;
  URLField  : option nat → bool → string → option string
}.

Definition ChoiceField (choices : list (string * string)) (data : string)
  : option string :=
  if decide (data ∈ choices.*1) then Some data else None.

Definition BooleanField (data : bool) : option bool := Some data.

Definition PrimaryKeyRelatedField {A} (queryset : gmap Z A) (data : Z) : option Z :=
  match queryset !! data with
  | Some _ => Some data
  | None => None
  end.

(** [Field.run_validation] by way of [validate_empty_values]: a key that
    is absent from the request is skipped on a partial update, an error
    when the field is required, and skipped otherwise. *)
Inductive field_outcome (A : Type) :=
  | Skipped
  | Failed
  | Cleaned (a : A).
Arguments Skipped {A}.
Arguments Failed {A}.
Arguments Cleaned {A} a.

Definition run_field {A B} (partial required : bool)
    (to_internal_value : A → option B) (data : option A) : field_outcome B :=
  match data with
  | None => if partial then Skipped else if required then Failed else Skipped
  | Some raw =>
      match to_internal_value raw with
      | Some v => Cleaned v
      | None => Failed
      end
  end.

Definition validated {A} (o : field_outcome A) : option A :=
  match o with
  | Cleaned v => Some v
  | _ => None
  end.

Definition error {A} (field_name : string) (o : field_outcome A) : list string :=
  match o with
  | Failed => [field_name]
  | _ => []
  end.

(** The request body of each writable serializer: a key is present or not. *)
Module JobSiteData.
Record t := mk {
  name         : option string;
  url          : option string;
  site_type    : option string;
  country      : option string;
  language     : option string;
  work_area    : option string;
  description  : option string;
  is_completed : option bool;
  visited      : option bool
}.
Definition empty : t := mk None None None None None None None None None.
End JobSiteData.

Module JobApplicationData.
Record t := mk {
  job_site     : option Z;
  position     : option string;
  company      : option string;
  job_url      : option string;
  description  : option string;
  salary_range : option string;
  status       : option string;
  notes        : option string;
  is_archived  : option bool
}.
Definition empty : t := mk None None None None None None None None None.
End JobApplicationData.

Module ApplicationTimelineData.
Record t := mk {
  application : option Z;
  event_type  : option string;
  title       : option string;
  description : option string
}.
Definition empty : t := mk None None None None.
End ApplicationTimelineData.

Module JobSiteSerializer.

Record representation := mk {
  id           : Z;
  name         : string;
  url          : string;
  site_type    : string;
  country      : string;
  language     : string;
  work_area    : string;
  description  : string;
  is_completed : bool;
  visited      : bool;
  created_at   : datetime;
  updated_at   : datetime;
  applications_count : Z
}.

Definition get_applications_count (db : DB) (obj : Z * JobSite.t) : Z :=
  count (JobSite_applications db obj.1).

Definition to_representation (db : DB) (obj : Z * JobSite.t) : representation :=
  let site := obj.2 in
  mk obj.1 (JobSite.name site) (JobSite.url site) (JobSite.site_type site)
     (JobSite.country site) (JobSite.language site) (JobSite.work_area site)
     (JobSite.description site) (JobSite.is_completed site) (JobSite.visited site)
     (JobSite.created_at site) (JobSite.updated_at site)
     (get_applications_count db obj).

Section writable.
Context `{!RestFramework}.

Definition run_validation (partial : bool) (data : JobSiteData.t)
  : list string + JobSiteData.t :=
  let name := run_field partial true (CharField (Some 200%nat) false)
                        (JobSiteData.name data) in
  let url := run_field partial true (URLField (Some 200%nat) false)
                       (JobSiteData.url data) in
  let site_type := run_field partial true (ChoiceField JobSite.SITE_TYPES)
                             (JobSiteData.site_type data) in
  let country := run_field partial true (ChoiceField JobSite.COUNTRIES)
                           (JobSiteData.country data) in
  let language := run_field partial true (ChoiceField JobSite.LANGUAGES)
                            (JobSiteData.language data) in
  let work_area := run_field partial true (ChoiceField JobSite.WORK_AREAS)
                             (JobSiteData.work_area data) in
  let description := run_field partial false (CharField None true)
                               (JobSiteData.description data) in
  let is_completed := run_field partial false BooleanField
                                (JobSiteData.is_completed data) in
  let visited := run_field partial false BooleanField
                           (JobSiteData.visited data) in
  match concat [ error "name" name;
                 error "url" url;
                 error "site_type" site_type;
                 error "country" country;
                 error "language" language;
                 error "work_area" work_area;
                 error "description" description;
                 error "is_completed" is_completed;
                 error "visited" visited ] with
  | [] => inr (JobSiteData.mk (validated name) (validated url)
                 (validated site_type) (validated country) (validated language)
                 (validated work_area) (validated description)
                 (validated is_completed) (validated visited))
  | errors => inl errors
  end.
End writable.

(** [setattr(instance, attr, value)] for every validated key. *)
Definition set_attrs (instance : JobSite.t) (v : JobSiteData.t) : JobSite.t :=
  JobSite.mk
    (default (JobSite.name instance) (JobSiteData.name v))
    (default (JobSite.url instance) (JobSiteData.url v))
    (default (JobSite.site_type instance) (JobSiteData.site_type v))
    (default (JobSite.country instance) (JobSiteData.country v))
    (default (JobSite.language instance) (JobSiteData.language v))
    (default (JobSite.work_area instance) (JobSiteData.work_area v))
    (default (JobSite.description instance) (JobSiteData.description v))
    (default (JobSite.is_completed instance) (JobSiteData.is_completed v))
    (default (JobSite.visited instance) (JobSiteData.visited v))
    (JobSite.created_at instance) (JobSite.updated_at instance).

End JobSiteSerializer.

Module ApplicationTimelineSerializer.

Record representation := mk {
  id          : Z;
  application : Z;
  event_type  : string;
  title       : string;
  description : string;
  date        : datetime
}.

Definition to_representation (obj : Z * ApplicationTimeline.t) : representation :=
  let event := obj.2 in
  mk obj.1 (ApplicationTimeline.application event)
     (ApplicationTimeline.event_type event) (ApplicationTimeline.title event)
     (ApplicationTimeline.description event) (ApplicationTimeline.date event).

Section writable.
Context `{!RestFramework}.

Definition run_validation (partial : bool) (data : ApplicationTimelineData.t)
  : DB → list string + ApplicationTimelineData.t := λ db,
  let application :=
    run_field partial true (PrimaryKeyRelatedField (job_applications db))
              (ApplicationTimelineData.application data) in
  let event_type :=
    run_field partial true (ChoiceField ApplicationTimeline.EVENT_TYPES)
              (ApplicationTimelineData.event_type data) in
  let title := run_field partial true (CharField (Some 200%nat) false)
                         (ApplicationTimelineData.title data) in
  let description := run_field partial false (CharField None true)
                               (ApplicationTimelineData.description data) in
  match concat [ error "application" application;
                 error "event_type" event_type;
                 error "title" title;
                 error "description" description ] with
  | [] => inr (ApplicationTimelineData.mk (validated application)
                 (validated event_type) (validated title)
                 (validated description))
  | errors => inl errors
  end.
End writable.

Definition set_attrs (instance : ApplicationTimeline.t)
    (v : ApplicationTimelineData.t) : ApplicationTimeline.t :=
  ApplicationTimeline.mk
    (default (ApplicationTimeline.application instance)
             (ApplicationTimelineData.application v))
    (default (ApplicationTimeline.event_type instance)
             (ApplicationTimelineData.event_type v))
    (default (ApplicationTimeline.title instance)
             (ApplicationTimelineData.title v))
    (default (ApplicationTimeline.description instance)
             (ApplicationTimelineData.description v))
    (ApplicationTimeline.date instance).

End ApplicationTimelineSerializer.

Module JobApplicationSerializer.

Record representation := mk {
  id           : Z;
  job_site     : Z;
  position     : string;
  company      : string;
  job_url      : string;
  description  : string;
  salary_range : string;
  status       : string;
  applied_date : datetime;
  notes        : string;
  is_archived  : bool;
  timeline      : list ApplicationTimelineSerializer.representation;
  job_site_name : option string
}.

(** [source='job_site.name']: the attribute lookup yields [None] when
    the related row does not exist. *)
Definition get_job_site_name (db : DB) (obj : Z * JobApplication.t) : option string :=
  JobSite.name <$> job_sites db !! JobApplication.job_site obj.2.

Definition to_representation (db : DB) (obj : Z * JobApplication.t)
  : representation :=
  let a := obj.2 in
  mk obj.1 (JobApplication.job_site a) (JobApplication.position a)
     (JobApplication.company a) (JobApplication.job_url a)
     (JobApplication.description a) (JobApplication.salary_range a)
     (JobApplication.status a) (JobApplication.applied_date a)
     (JobApplication.notes a) (JobApplication.is_archived a)
     (ApplicationTimelineSerializer.to_representation
        <$> JobApplication_timeline db obj.1)
     (get_job_site_name db obj).

Section writable.
Context `{!RestFramework}.

Definition run_validation (partial : bool) (data : JobApplicationData.t)
  : DB → list string + JobApplicationData.t := λ db,
  let job_site :=
    run_field partial true (PrimaryKeyRelatedField (job_sites db))
              (JobApplicationData.job_site data) in
  let position := run_field partial true (CharField (Some 200%nat) false)
                            (JobApplicationData.position data) in
  let company := run_field partial true (CharField (Some 200%nat) false)
                           (JobApplicationData.company data) in
  let job_url := run_field partial false (URLField (Some 200%nat) true)
                           (JobApplicationData.job_url data) in
  let description := run_field partial false (CharField None true)
                               (JobApplicationData.description data) in
  let salary_range := run_field partial false (CharField (Some 100%nat) true)
                                (JobApplicationData.salary_range data) in
  let status := run_field partial false
                          (ChoiceField JobApplication.STATUS_CHOICES)
                          (JobApplicationData.status data) in
  let notes := run_field partial false (CharField None true)
                         (JobApplicationData.notes data) in
  let is_archived := run_field partial false BooleanField
                               (JobApplicationData.is_archived data) in
  match concat [ error "job_site" job_site;
                 error "position" position;
                 error "company" company;
                 error "job_url" job_url;
                 error "description" description;
                 error "salary_range" salary_range;
                 error "status" status;
                 error "notes" notes;
                 error "is_archived" is_archived ] with
  | [] => inr (JobApplicationData.mk (validated job_site) (validated position)
                 (validated company) (validated job_url)
                 (validated description) (validated salary_range)
                 (validated status) (validated notes) (validated is_archived))
  | errors => inl errors
  end.
End writable.

Definition set_attrs (instance : JobApplication.t) (v : JobApplicationData.t)
  : JobApplication.t :=
  JobApplication.mk
    (default (JobApplication.job_site instance) (JobApplicationData.job_site v))
    (default (JobApplication.position instance) (JobApplicationData.position v))
    (default (JobApplication.company instance) (JobApplicationData.company v))
    (default (JobApplication.job_url instance) (JobApplicationData.job_url v))
    (default (JobApplication.description instance)
             (JobApplicationData.description v))
    (default (JobApplication.salary_range instance)
             (JobApplicationData.salary_range v))
    (default (JobApplication.status instance) (JobApplicationData.status v))
    (JobApplication.applied_date instance)
    (default (JobApplication.notes instance) (JobApplicationData.notes v))
    (default (JobApplication.is_archived instance)
             (JobApplicationData.is_archived v)).

End JobApplicationSerializer.

(** ** views.py

    Each viewset is a ModelViewSet: besides the actions written in
    views.py it serves create, retrieve, update, partial_update and
    destroy, built from [get_object], the serializer and the model's
    [save] and [delete]. *)

(** [serializer.is_valid(raise_exception=True)] *)
Definition is_valid {A} (run_validation : DB → list string + A) : View A :=
  λ db, match run_validation db with
        | inr v => (Ok v, db)
        | inl errors => (Raise (ValidationError errors), db)
        end.

Module JobSiteViewSet.

Record stats := mk {
  total_sites     : Z;
  visited_sites   : Z;
  completed_sites : Z;
  pending_sites   : Z
}.

Definition dashboard_stats : View stats :=
  total_sites ← query (λ db, count (objects_all (job_sites db)));
  visited_sites ← query (λ db,
    count (filter (λ r, JobSite.visited r.2 = true) (objects_all (job_sites db))));
  completed_sites ← query (λ db,
    count (filter (λ r, JobSite.is_completed r.2 = true)
                  (objects_all (job_sites db))));
  let pending_sites := total_sites - visited_sites in
  mret (mk total_sites visited_sites completed_sites pending_sites).

Definition mark_visited (now : datetime) (pk : Z) : View (list (string * string)) :=
  site ← get_object job_sites pk;
  let site := JobSite.set_visited true site in
  _ ← JobSite_save now pk site;
  mret [("status", "marked as visited")].

Definition mark_completed (now : datetime) (pk : Z) : View (list (string * string)) :=
  site ← get_object job_sites pk;
  let site := JobSite.set_is_completed true site in
  _ ← JobSite_save now pk site;
  mret [("status", "marked as completed")].

Definition retrieve (pk : Z) : View JobSiteSerializer.representation :=
  instance ← get_object job_sites pk;
  query (λ db, JobSiteSerializer.to_representation db (pk, instance)).

Definition destroy (pk : Z) : View unit :=
  instance ← get_object job_sites pk;
  JobSite_delete pk instance.

Section writable.
Context `{!RestFramework}.

Definition create (now : datetime) (data : JobSiteData.t)
  : View JobSiteSerializer.representation :=
  v ← is_valid (λ _, JobSiteSerializer.run_validation false data);
  obj ← JobSite_create now (JobSiteSerializer.set_attrs JobSite.defaults v);
  query (λ db, JobSiteSerializer.to_representation db obj).

Definition update (partial : bool) (now : datetime) (pk : Z)
    (data : JobSiteData.t) : View JobSiteSerializer.representation :=
  instance ← get_object job_sites pk;
  v ← is_valid (λ _, JobSiteSerializer.run_validation partial data);
  obj ← JobSite_save now pk (JobSiteSerializer.set_attrs instance v);
  query (λ db, JobSiteSerializer.to_representation db obj).

Definition partial_update := update true.
End writable.

End JobSiteViewSet.

Module JobApplicationViewSet.

Definition timeline : View (list JobApplicationSerializer.representation) :=
  applications ← query (λ db,
    order_by_desc (λ r, JobApplication.applied_date r.2)
      (filter (λ r, JobApplication.is_archived r.2 = false)
              (objects_all (job_applications db))));
  query (λ db, JobApplicationSerializer.to_representation db <$> applications).

Definition archive (pk : Z) : View (list (string * string)) :=
  application ← get_object job_applications pk;
  let application := JobApplication.set_is_archived true application in
  _ ← JobApplication_save pk application;
  mret [("status", "archived")].

Definition unarchive (pk : Z) : View (list (string * string)) :=
  application ← get_object job_applications pk;
  let application := JobApplication.set_is_archived false application in
  _ ← JobApplication_save pk application;
  mret [("status", "unarchived")].

Record stats_body := mk {
  total_applications : Z;
  by_status          : list (string * Z);
  archived           : Z
}.

Definition stats : View stats_body :=
  total ← query (λ db, count (objects_all (job_applications db)));
  by_status ← query (λ db,
    values_annotate_count
      ((λ r, JobApplication.status r.2) <$> objects_all (job_applications db)));
  archived ← query (λ db,
    count (filter (λ r, JobApplication.is_archived r.2 = true)
                  (objects_all (job_applications db))));
  mret (mk total by_status archived).

Definition retrieve (pk : Z) : View JobApplicationSerializer.representation :=
  instance ← get_object job_applications pk;
  query (λ db, JobApplicationSerializer.to_representation db (pk, instance)).

Definition destroy (pk : Z) : View unit :=
  instance ← get_object job_applications pk;
  JobApplication_delete pk instance.

Section writable.
Context `{!RestFramework}.

Definition create (now : datetime) (data : JobApplicationData.t)
  : View JobApplicationSerializer.representation :=
  v ← is_valid (JobApplicationSerializer.run_validation false data);
  obj ← JobApplication_create now
          (JobApplicationSerializer.set_attrs JobApplication.defaults v);
  query (λ db, JobApplicationSerializer.to_representation db obj).

Definition update (partial : bool) (pk : Z) (data : JobApplicationData.t)
  : View JobApplicationSerializer.representation :=
  instance ← get_object job_applications pk;
  v ← is_valid (JobApplicationSerializer.run_validation partial data);
  obj ← JobApplication_save pk (JobApplicationSerializer.set_attrs instance v);
  query (λ db, JobApplicationSerializer.to_representation db obj).

Definition partial_update := update true.
End writable.

End JobApplicationViewSet.

Module ApplicationTimelineViewSet.

Definition retrieve (pk : Z) : View ApplicationTimelineSerializer.representation :=
  instance ← get_object application_timelines pk;
  mret (ApplicationTimelineSerializer.to_representation (pk, instance)).

Definition destroy (pk : Z) : View unit :=
  instance ← get_object application_timelines pk;
  ApplicationTimeline_delete pk instance.

Section writable.
Context `{!RestFramework}.

Definition create (now : datetime) (data : ApplicationTimelineData.t)
  : View ApplicationTimelineSerializer.representation :=
  v ← is_valid (ApplicationTimelineSerializer.run_validation false data);
  obj ← ApplicationTimeline_create now
          (ApplicationTimelineSerializer.set_attrs ApplicationTimeline.defaults v);
  mret (ApplicationTimelineSerializer.to_representation obj).

Definition update (partial : bool) (pk : Z) (data : ApplicationTimelineData.t)
  : View ApplicationTimelineSerializer.representation :=
  instance ← get_object application_timelines pk;
  v ← is_valid (ApplicationTimelineSerializer.run_validation partial data);
  obj ← ApplicationTimeline_save pk
          (ApplicationTimelineSerializer.set_attrs instance v);
  mret (ApplicationTimelineSerializer.to_representation obj).

Definition partial_update := update true.
End writable.

End ApplicationTimelineViewSet.

(** ** urls.py

    The router registers the three viewsets under [job-sites],
    [applications] and [timeline]; these are the requests that can change
    the database. *)

Inductive Request :=
  | POST_job_sites (data : JobSiteData.t)
  | PUT_job_site (pk : Z) (data : JobSiteData.t)
  | PATCH_job_site (pk : Z) (data : JobSiteData.t)
  | DELETE_job_site (pk : Z)
  | POST_job_site_mark_visited (pk : Z)
  | POST_job_site_mark_completed (pk : Z)
  | POST_applications (data : JobApplicationData.t)
  | PUT_application (pk : Z) (data : JobApplicationData.t)
  | PATCH_application (pk : Z) (data : JobApplicationData.t)
  | DELETE_application (pk : Z)
  | POST_application_archive (pk : Z)
  | POST_application_unarchive (pk : Z)
  | POST_timeline (data : ApplicationTimelineData.t)
  | PUT_timeline (pk : Z) (data : ApplicationTimelineData.t)
  | PATCH_timeline (pk : Z) (data : ApplicationTimelineData.t)
  | DELETE_timeline (pk : Z).

Definition discard {A} (v : View A) : View unit := _ ← v; mret tt.

Section dispatch.
Context `{!RestFramework}.

Definition dispatch (now : datetime) (r : Request) : View unit :=
  match r with
  | POST_job_sites data => discard (JobSiteViewSet.create now data)
  | PUT_job_site pk data => discard (JobSiteViewSet.update false now pk data)
  | PATCH_job_site pk data => discard (JobSiteViewSet.partial_update now pk data)
  | DELETE_job_site pk => JobSiteViewSet.destroy pk
  | POST_job_site_mark_visited pk => discard (JobSiteViewSet.mark_visited now pk)
  | POST_job_site_mark_completed pk =>
      discard (JobSiteViewSet.mark_completed now pk)
  | POST_applications data => discard (JobApplicationViewSet.create now data)
  | PUT_application pk data => discard (JobApplicationViewSet.update false pk data)
  | PATCH_application pk data =>
      discard (JobApplicationViewSet.partial_update pk data)
  | DELETE_application pk => JobApplicationViewSet.destroy pk
  | POST_application_archive pk => discard (JobApplicationViewSet.archive pk)
  | POST_application_unarchive pk => discard (JobApplicationViewSet.unarchive pk)
  | POST_timeline data => discard (ApplicationTimelineViewSet.create now data)
  | PUT_timeline pk data =>
      discard (ApplicationTimelineViewSet.update false pk data)
  | PATCH_timeline pk data =>
      discard (ApplicationTimelineViewSet.partial_update pk data)
  | DELETE_timeline pk => ApplicationTimelineViewSet.destroy pk
  end.

(** The database after serving one request at time [now], and after
    serving a sequence of timed requests in order. *)
Definition serve (db : DB) (req : datetime * Request) : DB :=
  (dispatch req.1 req.2 db).2.

Definition serve_all (db : DB) (reqs : list (datetime * Request)) : DB :=
  foldl serve db reqs.
End dispatch.

(** ** settings.py: the list action

    REST_FRAMEWORK sets PageNumberPagination with PAGE_SIZE 20, so the
    [list] action of each ModelViewSet answers one page of its queryset,
    taken in the model's [Meta.ordering].  The [page] query parameter is
    absent (page 1), a number, the word [last], or anything else; the
    paginator answers a page number below 1 or beyond the last page, or a
    parameter that is no number, with a 404.  An empty queryset still has
    one, empty, page. *)

Module PageNumberPagination.

Definition PAGE_SIZE : Z := 20.

Inductive page_query :=
  | page_absent
  | page_number (n : Z)
  | page_last
  | page_other.

(** [Paginator.num_pages] with no orphans: [ceil(max(1, count) / per_page)]. *)
Definition num_pages (total : Z) : Z :=
  (Z.max 1 total + PAGE_SIZE - 1) / PAGE_SIZE.

(** The response body; [next] and [previous] are given as page numbers
    where the framework writes links. *)
Record body (A : Type) := mk {
  count    : Z;
  next     : option Z;
  previous : option Z;
  results  : list A
}.
Arguments mk {A} _ _ _ _.
Arguments count {A} _.
Arguments next {A} _.
Arguments previous {A} _.
Arguments results {A} _.

Definition paginate_queryset {A} (page_param : page_query) (queryset : list A)
  : View (body A) :=
  let total := Z.of_nat (length queryset) in
  let last := num_pages total in
  let requested :=
    match page_param with
    | page_absent => Some 1
    | page_number n => Some n
    | page_last => Some last
    | page_other => None
    end in
  match requested with
  | None => raise Http404
  | Some number =>
      if decide (number < 1 ∨ last < number) then raise Http404
      else
        let bottom := (number - 1) * PAGE_SIZE in
        mret (mk total
                 (if decide (number < last) then Some (number + 1) else None)
                 (if decide (1 < number) then Some (number - 1) else None)
                 (take (Z.to_nat PAGE_SIZE) (drop (Z.to_nat bottom) queryset)))
  end.

Definition serialize {A B} (to_representation : A → B) (page : body A) : body B :=
  mk (count page) (next page) (previous page) (to_representation <$> results page).

End PageNumberPagination.

(** GET /job-sites/, /applications/ and /timeline/. *)
Definition list_job_sites (page_param : PageNumberPagination.page_query)
  : View (PageNumberPagination.body JobSiteSerializer.representation) :=
  queryset ← query (λ db,
    order_by_desc (λ r, JobSite.created_at r.2) (objects_all (job_sites db)));
  page ← PageNumberPagination.paginate_queryset page_param queryset;
  query (λ db,
    PageNumberPagination.serialize (JobSiteSerializer.to_representation db) page).

Definition list_applications (page_param : PageNumberPagination.page_query)
  : View (PageNumberPagination.body JobApplicationSerializer.representation) :=
  queryset ← query (λ db,
    order_by_desc (λ r, JobApplication.applied_date r.2)
                  (objects_all (job_applications db)));
  page ← PageNumberPagination.paginate_queryset page_param queryset;
  query (λ db,
    PageNumberPagination.serialize
      (JobApplicationSerializer.to_representation db) page).

Definition list_timeline (page_param : PageNumberPagination.page_query)
  : View (PageNumberPagination.body ApplicationTimelineSerializer.representation) :=
  queryset ← query (λ db,
    order_by_desc (λ r, ApplicationTimeline.date r.2)
                  (objects_all (application_timelines db)));
  page ← PageNumberPagination.paginate_queryset page_param queryset;
  mret (PageNumberPagination.serialize
          ApplicationTimelineSerializer.to_representation page).

(** ** Consistent databases

    What the schema's constraints maintain: every foreign key points at an
    existing row, and no row carries an id beyond its table's sequence. *)

Definition foreign_keys_valid (db : DB) : Prop :=
  map_Forall (λ _ a, is_Some (job_sites db !! JobApplication.job_site a))
             (job_applications db)
  ∧ map_Forall (λ _ e, is_Some (job_applications db
                                  !! ApplicationTimeline.application e))
               (application_timelines db).

Definition sequences_valid (db : DB) : Prop :=
  map_Forall (λ pk _, pk ≤ seq_job_site db) (job_sites db)
  ∧ map_Forall (λ pk _, pk ≤ seq_job_application db) (job_applications db)
  ∧ map_Forall (λ pk _, pk ≤ seq_application_timeline db)
               (application_timelines db).

Definition consistent (db : DB) : Prop :=
  foreign_keys_valid db ∧ sequences_valid db.

Global Instance foreign_keys_valid_dec db : Decision (foreign_keys_valid db).
Proof. unfold foreign_keys_valid. apply _. Defined.

Global Instance sequences_valid_dec db : Decision (sequences_valid db).
Proof. unfold sequences_valid. apply _. Defined.

Global Instance consistent_dec db : Decision (consistent db).
Proof. unfold consistent. apply _. Defined.

(** The sum of a list of counts. *)
Definition sum_counts (counts : list Z) : Z := foldr Z.add 0 counts.

(** Two databases that differ at most in the row [pk] of one table. *)
Definition only_site_differs (pk : Z) (db db' : DB) : Prop :=
  (∀ k, k ≠ pk → job_sites db' !! k = job_sites db !! k)
  ∧ job_applications db' = job_applications db
  ∧ application_timelines db' = application_timelines db.

Definition only_application_differs (pk : Z) (db db' : DB) : Prop :=
  job_sites db' = job_sites db
  ∧ (∀ k, k ≠ pk → job_applications db' !! k = job_applications db !! k)
  ∧ application_timelines db' = application_timelines db.

(** How one request may move a database: sequences only grow, a row that
    is present afterwards was present before or carries an id newly drawn
    from the sequence, and a timeline event that was present before keeps
    its [date]. *)
Definition evolves (db db' : DB) : Prop :=
  seq_job_site db ≤ seq_job_site db'
  ∧ seq_job_application db ≤ seq_job_application db'
  ∧ seq_application_timeline db ≤ seq_application_timeline db'
  ∧ (∀ k, is_Some (job_sites db' !! k) →
       is_Some (job_sites db !! k)
       ∨ seq_job_site db < k ≤ seq_job_site db')
  ∧ (∀ k, is_Some (job_applications db' !! k) →
       is_Some (job_applications db !! k)
       ∨ seq_job_application db < k ≤ seq_job_application db')
  ∧ (∀ k e', application_timelines db' !! k = Some e' →
       (∃ e, application_timelines db !! k = Some e
             ∧ ApplicationTimeline.date e' = ApplicationTimeline.date e)
       ∨ seq_application_timeline db < k ≤ seq_application_timeline db').

(** A view turns a request down over one of its fields: it raises a
    [ValidationError] that lists the field and leaves the database as it
    was. *)
Definition rejects {A} (view : View A) (field_name : string) (db : DB) : Prop :=
  ∃ errors, view db = (Raise (ValidationError errors), db) ∧ field_name ∈ errors.

(** Every stored choice field holds one of the values its [choices] list. *)
Definition choices_valid (db : DB) : Prop :=
  map_Forall (λ _ s, JobSite.site_type s ∈ JobSite.SITE_TYPES.*1
                     ∧ JobSite.country s ∈ JobSite.COUNTRIES.*1
                     ∧ JobSite.language s ∈ JobSite.LANGUAGES.*1
                     ∧ JobSite.work_area s ∈ JobSite.WORK_AREAS.*1)
             (job_sites db)
  ∧ map_Forall (λ _ a, JobApplication.status a ∈ JobApplication.STATUS_CHOICES.*1)
               (job_applications db)
  ∧ map_Forall (λ _ e, ApplicationTimeline.event_type e
                       ∈ ApplicationTimeline.EVENT_TYPES.*1)
               (application_timelines db).

Global Instance choices_valid_dec db : Decision (choices_valid db).
Proof. unfold choices_valid. apply _. Defined.

(** Across one request the creation stamps stay: a site or application
    that is present afterwards was present before with the same
    [created_at] or [applied_date], or carries an id beyond the sequence. *)
Definition keeps_stamps (db db' : DB) : Prop :=
  (∀ k s', job_sites db' !! k = Some s' →
     (∃ s, job_sites db !! k = Some s
           ∧ JobSite.created_at s' = JobSite.created_at s)
     ∨ seq_job_site db < k)
  ∧ (∀ k a', job_applications db' !! k = Some a' →
       (∃ a, job_applications db !! k = Some a
             ∧ JobApplication.applied_date a' = JobApplication.applied_date a)
       ∨ seq_job_application db < k).

Definition only_event_differs (pk : Z) (db db' : DB) : Prop :=
  job_sites db' = job_sites db
  ∧ job_applications db' = job_applications db
  ∧ (∀ k, k ≠ pk → application_timelines db' !! k = application_timelines db !! k).

(** ** Sample data

    The records of the walk-through in the system description: one site,
    one application made through it, one event in its timeline. *)

Definition acme_boards : JobSite.t :=
  JobSite.mk "Acme Boards" "https://acme.example" "job_board" "US" "en" "tech"
             "" false false 100 100.

Definition backend_engineer : JobApplication.t :=
  JobApplication.mk 1 "Backend Engineer" "Acme Inc" "" "" "" "applied" 200 "" false.

Definition application_sent : ApplicationTimeline.t :=
  ApplicationTimeline.mk 1 "applied" "Application sent" "" 300.

Definition acme_db : DB :=
  mkDB {[ 1 := acme_boards ]} {[ 1 := backend_engineer ]} {[ 1 := application_sent ]}
       1 1 1.

(** A request to create an application through site 7, which does not
    exist in [acme_db], and one to change the type of event 1. *)
Definition application_for_site_7 : JobApplicationData.t :=
  JobApplicationData.mk (Some 7) (Some "Backend Engineer") (Some "Acme Inc")
                        None None None None None None.

Definition event_rejected : ApplicationTimelineData.t :=
  ApplicationTimelineData.mk None (Some "rejected") None None.

(** The requests of the walk-through, as request bodies. *)
Definition acme_boards_data : JobSiteData.t :=
  JobSiteData.mk (Some "Acme Boards") (Some "https://acme.example")
                 (Some "job_board") (Some "US") (Some "en") (Some "tech")
                 None None None.

Definition backend_engineer_data : JobApplicationData.t :=
  JobApplicationData.mk (Some 1) (Some "Backend Engineer") (Some "Acme Inc")
                        None None None None None None.

(** Two sites: one visited and not completed, one completed and not
    visited. *)
Definition two_sites_db : DB :=
  mkDB {[ 1 := JobSite.mk "A" "https://a.example" "company" "BR" "pt" "tech"
                          "" false true 100 150;
          2 := JobSite.mk "B" "https://b.example" "freelance" "US" "en" "design"
                          "" true false 200 250 ]}
       ∅ ∅ 2 0 0.

(** A stand-in for the framework's text fields: any text within the
    length limit, blank only where allowed, taken as it is. *)
Definition plain_text (max_length : option nat) (allow_blank : bool) (data : string)
  : option string :=
  if (allow_blank || negb (String.eqb data ""))
     && from_option (λ n, Nat.leb (String.length data) n) true max_length
  then Some data else None.

Definition plain_text_fields : RestFramework :=
  {| CharField := plain_text; URLField := plain_text |}.

(** * Properties *)

(** ** Querysets against tables *)

Section querysets.
Context {A : Type}.
Implicit Types (table : gmap Z A) (qs : list (Z * A)).

Lemma objects_all_lookup table pk obj :
  (pk, obj) ∈ objects_all table ↔ table !! pk = Some obj.
Proof. apply elem_of_map_to_list. Qed.

Lemma objects_all_NoDup table : NoDup (objects_all table).
Proof. apply NoDup_map_to_list. Qed.

Lemma count_objects_all table : count (objects_all table) = Z.of_nat (size table).
Proof. unfold count, objects_all. by rewrite length_map_to_list. Qed.

Lemma filter_objects_all (P : Z * A → Prop) `{!∀ r, Decision (P r)} table :
  filter P (objects_all table) ≡ₚ map_to_list (filter P table).
Proof.
  apply NoDup_Permutation.
  - apply NoDup_filter, NoDup_map_to_list.
  - apply NoDup_map_to_list.
  - intros [pk obj]. rewrite list_elem_of_filter, !elem_of_map_to_list.
    rewrite map_lookup_filter_Some, objects_all_lookup. tauto.
Qed.

Lemma count_filter_objects_all (P : Z * A → Prop) `{!∀ r, Decision (P r)} table :
  count (filter P (objects_all table)) = Z.of_nat (size (filter P table)).
Proof.
  unfold count. by rewrite filter_objects_all, length_map_to_list.
Qed.

Lemma count_filter_complement (P : Z * A → Prop) `{!∀ r, Decision (P r)} qs :
  count (filter P qs) + count (filter (λ r, ¬ P r) qs) = count qs.
Proof.
  unfold count. rewrite <-Nat2Z.inj_add, <-length_app.
  by rewrite filter_app_complement.
Qed.
End querysets.

Lemma visited_false_iff (r : Z * JobSite.t) :
  JobSite.visited r.2 = false ↔ ¬ JobSite.visited r.2 = true.
Proof. destruct (JobSite.visited r.2); naive_solver. Qed.

(** C1. Whatever the database holds, [dashboard_stats] answers without
    changing it, and its [pending_sites] is [total_sites - visited_sites],
    which is the number of sites with [visited = False]; [is_completed]
    plays no part in it. *)
Theorem dashboard_stats_pending (db : DB) :
  ∃ r, JobSiteViewSet.dashboard_stats db = (Ok r, db)
    ∧ JobSiteViewSet.total_sites r = Z.of_nat (size (job_sites db))
    ∧ JobSiteViewSet.visited_sites r
      = Z.of_nat (size (filter (λ r, JobSite.visited r.2 = true) (job_sites db)))
    ∧ JobSiteViewSet.pending_sites r
      = JobSiteViewSet.total_sites r - JobSiteViewSet.visited_sites r
    ∧ JobSiteViewSet.pending_sites r
      = Z.of_nat (size (filter (λ r, JobSite.visited r.2 = false) (job_sites db))).
Proof.
  eexists. split; [reflexivity|]. cbn.
  rewrite count_objects_all, !count_filter_objects_all.
  repeat split.
  rewrite <-count_objects_all, <-!count_filter_objects_all.
  rewrite <-(count_filter_complement (λ r, JobSite.visited r.2 = true)
               (objects_all (job_sites db))).
  rewrite (list_filter_iff (λ r, JobSite.visited r.2 = false)
             (λ r, ¬ JobSite.visited r.2 = true)) by apply visited_false_iff.
  lia.
Qed.

(** ** Grouped counts *)

Section group_by.
Implicit Types (col : list string) (v : string).

Lemma filter_all {A} (P : A → Prop) `{!∀ x, Decision (P x)} (l : list A) :
  Forall P l → filter P l = l.
Proof.
  induction 1 as [|x l HP _ IH]; [done|].
  by rewrite filter_cons_True, IH.
Qed.

Lemma length_filter_fmap {A B} (f : A → B) (P : B → Prop)
    `{!∀ y, Decision (P y)} (l : list A) :
  length (filter P (f <$> l)) = length (filter (λ x, P (f x)) l).
Proof.
  induction l as [|x l IH]; [done|]. cbn [fmap list_fmap].
  rewrite !filter_cons. destruct (decide (P (f x))); cbn; by rewrite IH.
Qed.

Lemma count_split v (vs : list string) col :
  v ∉ vs →
  count (filter (λ x, x = v) col) + count (filter (λ x, x ∈ vs) col)
  = count (filter (λ x, x ∈ v :: vs) col).
Proof.
  intros Hv. unfold count. induction col as [|x col IH]; [done|].
  rewrite !filter_cons.
  destruct (decide (x = v)) as [->|Hne].
  - rewrite decide_False by done.
    rewrite decide_True by apply list_elem_of_here. cbn [length]. lia.
  - destruct (decide (x ∈ vs)) as [Hin|Hnin].
    + rewrite decide_True by by apply list_elem_of_further.
      cbn [length]. lia.
    + rewrite decide_False by (rewrite elem_of_cons; tauto). lia.
Qed.

Lemma sum_counts_groups (vs : list string) col :
  NoDup vs →
  sum_counts ((λ v, count (filter (λ x, x = v) col)) <$> vs)
  = count (filter (λ x, x ∈ vs) col).
Proof.
  unfold sum_counts.
  induction 1 as [|v vs Hv _ IH]; cbn [fmap list_fmap foldr].
  - unfold count. rewrite (proj2 (length_zero_iff_nil _)); [done|].
    induction col as [|x col IHc]; [done|].
    rewrite filter_cons_False; [done|]. apply not_elem_of_nil.
  - rewrite IH. by apply count_split.
Qed.

Lemma values_annotate_count_keys col :
  (values_annotate_count col).*1 = remove_dups col.
Proof.
  unfold values_annotate_count. rewrite <-list_fmap_compose.
  apply list_fmap_id.
Qed.

Lemma values_annotate_count_elem col v n :
  (v, n) ∈ values_annotate_count col
  ↔ v ∈ col ∧ n = count (filter (λ x, x = v) col).
Proof.
  unfold values_annotate_count. rewrite list_elem_of_fmap. split.
  - intros (w & [= -> ->] & Hw). by rewrite elem_of_remove_dups in Hw.
  - intros [Hv ->]. exists v. by rewrite elem_of_remove_dups.
Qed.

Lemma count_filter_pos {A} (P : A → Prop) `{!∀ x, Decision (P x)}
    (l : list A) (x : A) :
  x ∈ l → P x → 0 < count (filter P l).
Proof.
  intros Hx HP. unfold count.
  assert (x ∈ filter P l) as Hin by by apply list_elem_of_filter.
  destruct (filter P l); [by apply not_elem_of_nil in Hin | cbn; lia].
Qed.

Lemma sum_counts_values_annotate_count col :
  sum_counts (values_annotate_count col).*2 = count col.
Proof.
  unfold values_annotate_count. rewrite <-list_fmap_compose.
  rewrite (sum_counts_groups (remove_dups col) col)
    by apply NoDup_remove_dups.
  f_equal. apply filter_all, Forall_forall.
  intros x Hx. by apply elem_of_remove_dups.
Qed.
End group_by.

(** C2. Whatever the database holds, [stats] answers without changing it;
    its [by_status] has one entry for each status value that some
    application holds and for no other value, every entry counts the
    applications holding its status (so no count is 0), and the counts add
    up to [total_applications]. *)
Theorem stats_by_status (db : DB) :
  ∃ r, JobApplicationViewSet.stats db = (Ok r, db)
    ∧ JobApplicationViewSet.total_applications r
      = Z.of_nat (size (job_applications db))
    ∧ NoDup (JobApplicationViewSet.by_status r).*1
    ∧ (∀ status, status ∈ (JobApplicationViewSet.by_status r).*1
         ↔ ∃ pk a, job_applications db !! pk = Some a
                   ∧ JobApplication.status a = status)
    ∧ (∀ status n, (status, n) ∈ JobApplicationViewSet.by_status r →
         0 < n
         ∧ n = Z.of_nat (size (filter (λ r, JobApplication.status r.2 = status)
                                      (job_applications db))))
    ∧ sum_counts (JobApplicationViewSet.by_status r).*2
      = JobApplicationViewSet.total_applications r.
Proof.
  eexists. split; [reflexivity|]. cbn.
  set (col := (λ r, JobApplication.status r.2) <$> objects_all (job_applications db)).
  assert (∀ status, status ∈ col
            ↔ ∃ pk a, job_applications db !! pk = Some a
                      ∧ JobApplication.status a = status) as Hcol.
  { intros status. unfold col. rewrite list_elem_of_fmap. split.
    - intros ([pk a] & -> & Hin). apply objects_all_lookup in Hin. eauto.
    - intros (pk & a & Ha & <-). exists (pk, a).
      by rewrite objects_all_lookup. }
  assert (∀ status, count (filter (λ x, x = status) col)
            = Z.of_nat (size (filter (λ r, JobApplication.status r.2 = status)
                                     (job_applications db)))) as Hcount.
  { intros status. rewrite <-count_filter_objects_all. unfold count, col.
    by rewrite length_filter_fmap. }
  split_and!.
  - apply count_objects_all.
  - rewrite values_annotate_count_keys. apply NoDup_remove_dups.
  - intros status. rewrite values_annotate_count_keys, elem_of_remove_dups.
    apply Hcol.
  - intros status n [Hin ->]%values_annotate_count_elem. split.
    + by apply (count_filter_pos _ col status).
    + apply Hcount.
  - rewrite sum_counts_values_annotate_count. unfold count, col.
    by rewrite length_fmap.
Qed.

(** ** Cascading deletes *)

Lemma collect_applications_lookup (sites : gmap Z JobSite.t) db k a :
  collect_applications sites db !! k = Some a
  ↔ job_applications db !! k = Some a
    ∧ is_Some (sites !! JobApplication.job_site a).
Proof. unfold collect_applications. by rewrite map_lookup_filter_Some. Qed.

Lemma collect_timelines_lookup (applications : gmap Z JobApplication.t) db k e :
  collect_timelines applications db !! k = Some e
  ↔ application_timelines db !! k = Some e
    ∧ is_Some (applications !! ApplicationTimeline.application e).
Proof. unfold collect_timelines. by rewrite map_lookup_filter_Some. Qed.

Lemma lookup_difference_Some_not {A} (m del : gmap Z A) k x :
  (m ∖ del) !! k = Some x ↔ m !! k = Some x ∧ ¬ is_Some (del !! k).
Proof.
  rewrite lookup_difference_Some, <-eq_None_not_Some. done.
Qed.

Lemma JobSite_delete_spec db pk site :
  ∃ db', JobSite_delete pk site db = (Ok tt, db')
    ∧ (∀ k s, job_sites db' !! k = Some s ↔ job_sites db !! k = Some s ∧ k ≠ pk)
    ∧ (∀ k a, job_applications db' !! k = Some a
         ↔ job_applications db !! k = Some a ∧ JobApplication.job_site a ≠ pk)
    ∧ (∀ k e, application_timelines db' !! k = Some e
         ↔ application_timelines db !! k = Some e
           ∧ ¬ ∃ a, job_applications db !! ApplicationTimeline.application e = Some a
                    ∧ JobApplication.job_site a = pk)
    ∧ seq_job_site db' = seq_job_site db
    ∧ seq_job_application db' = seq_job_application db
    ∧ seq_application_timeline db' = seq_application_timeline db.
Proof.
  eexists. split; [reflexivity|]. cbn. split_and!; try done.
  - intros k s. rewrite lookup_difference_Some, lookup_singleton_None.
    split; intros [? ?]; split; congruence.
  - intros k a. rewrite lookup_difference_Some_not.
    split.
    + intros [Ha Hnot]. split; [done|]. intros Hpk. apply Hnot. exists a.
      apply collect_applications_lookup. split; [done|].
      rewrite Hpk, lookup_singleton_eq. eauto.
    + intros [Ha Hne]. split; [done|]. intros [a' Ha'].
      apply collect_applications_lookup in Ha' as [Ha' [s Hs]].
      apply lookup_singleton_Some in Hs as [Hs _]. congruence.
  - intros k e. rewrite lookup_difference_Some_not.
    split.
    + intros [He Hnot]. split; [done|]. intros (a & Ha & Hpk). apply Hnot.
      exists e. apply collect_timelines_lookup. split; [done|]. exists a.
      apply collect_applications_lookup. split; [done|].
      rewrite Hpk, lookup_singleton_eq. eauto.
    + intros [He Hnone]. split; [done|]. intros [e' He'].
      apply collect_timelines_lookup in He' as [He' [a Ha]].
      apply collect_applications_lookup in Ha as [Ha [s Hs]].
      apply lookup_singleton_Some in Hs as [Hs _].
      apply Hnone. exists a. split; congruence.
Qed.

(** C3. Deleting an existing site [pk] succeeds and removes exactly: the
    site, every application whose [job_site] is [pk], and every timeline
    event whose [application] is one of those applications.  Every other
    row is still there, unchanged. *)
Theorem destroy_site_cascade (db : DB) (pk : Z) (site : JobSite.t) :
  job_sites db !! pk = Some site →
  ∃ db', JobSiteViewSet.destroy pk db = (Ok tt, db')
    ∧ (∀ k s, job_sites db' !! k = Some s ↔ job_sites db !! k = Some s ∧ k ≠ pk)
    ∧ (∀ k a, job_applications db' !! k = Some a
         ↔ job_applications db !! k = Some a ∧ JobApplication.job_site a ≠ pk)
    ∧ (∀ k e, application_timelines db' !! k = Some e
         ↔ application_timelines db !! k = Some e
           ∧ ¬ ∃ a, job_applications db !! ApplicationTimeline.application e = Some a
                    ∧ JobApplication.job_site a = pk).
Proof.
  intros Hsite.
  destruct (JobSite_delete_spec db pk site)
    as (db' & Hdel & Hsites & Happs & Hevents & _).
  exists db'. split; [|done].
  unfold JobSiteViewSet.destroy, mbind, View_bind, get_object.
  by rewrite Hsite.
Qed.

(** ** Transitions *)

Section transitions.
Implicit Types (db : DB) (now : datetime) (pk : Z).

Lemma mark_visited_found db now pk site :
  job_sites db !! pk = Some site →
  JobSiteViewSet.mark_visited now pk db
  = (Ok [("status", "marked as visited")],
     with_job_sites
       (<[pk := JobSite.set_updated_at now (JobSite.set_visited true site)]>
          (job_sites db)) db).
Proof.
  intros Hsite. unfold JobSiteViewSet.mark_visited, mbind, View_bind, get_object.
  by rewrite Hsite.
Qed.

Lemma mark_completed_found db now pk site :
  job_sites db !! pk = Some site →
  JobSiteViewSet.mark_completed now pk db
  = (Ok [("status", "marked as completed")],
     with_job_sites
       (<[pk := JobSite.set_updated_at now (JobSite.set_is_completed true site)]>
          (job_sites db)) db).
Proof.
  intros Hsite.
  unfold JobSiteViewSet.mark_completed, mbind, View_bind, get_object.
  by rewrite Hsite.
Qed.

Lemma archive_found db pk application :
  job_applications db !! pk = Some application →
  JobApplicationViewSet.archive pk db
  = (Ok [("status", "archived")],
     with_job_applications
       (<[pk := JobApplication.set_is_archived true application]>
          (job_applications db)) db).
Proof.
  intros Happ. unfold JobApplicationViewSet.archive, mbind, View_bind, get_object.
  by rewrite Happ.
Qed.

Lemma unarchive_found db pk application :
  job_applications db !! pk = Some application →
  JobApplicationViewSet.unarchive pk db
  = (Ok [("status", "unarchived")],
     with_job_applications
       (<[pk := JobApplication.set_is_archived false application]>
          (job_applications db)) db).
Proof.
  intros Happ.
  unfold JobApplicationViewSet.unarchive, mbind, View_bind, get_object.
  by rewrite Happ.
Qed.

Lemma only_site_differs_insert db pk site :
  only_site_differs pk db (with_job_sites (<[pk := site]> (job_sites db)) db).
Proof.
  split_and!; [|done..]. intros k Hk. cbn. by rewrite lookup_insert_ne.
Qed.

Lemma only_application_differs_insert db pk application :
  only_application_differs pk db
    (with_job_applications (<[pk := application]> (job_applications db)) db).
Proof.
  split_and!; [done| |done]. intros k Hk. cbn. by rewrite lookup_insert_ne.
Qed.
End transitions.

(** C7. Each of the four transitions, applied to an existing record,
    succeeds with its acknowledgement and stores that record with its one
    flag set to the fixed value ([visited] and [is_completed] to True,
    [is_archived] to True or False); a site also gets [updated_at] set to
    the time of the call.  All other fields of the record keep their
    values, [status] of an archived application among them, and no other
    row of any table changes. *)
Theorem transitions_frame (db : DB) (now : datetime) (pk : Z) :
  (∀ site, job_sites db !! pk = Some site →
     (∃ db', JobSiteViewSet.mark_visited now pk db
             = (Ok [("status", "marked as visited")], db')
        ∧ job_sites db' !! pk
          = Some (JobSite.mk (JobSite.name site) (JobSite.url site)
                    (JobSite.site_type site) (JobSite.country site)
                    (JobSite.language site) (JobSite.work_area site)
                    (JobSite.description site) (JobSite.is_completed site)
                    true (JobSite.created_at site) now)
        ∧ only_site_differs pk db db')
     ∧ (∃ db', JobSiteViewSet.mark_completed now pk db
               = (Ok [("status", "marked as completed")], db')
        ∧ job_sites db' !! pk
          = Some (JobSite.mk (JobSite.name site) (JobSite.url site)
                    (JobSite.site_type site) (JobSite.country site)
                    (JobSite.language site) (JobSite.work_area site)
                    (JobSite.description site) true
                    (JobSite.visited site) (JobSite.created_at site) now)
        ∧ only_site_differs pk db db'))
  ∧ (∀ a, job_applications db !! pk = Some a →
     (∃ db', JobApplicationViewSet.archive pk db = (Ok [("status", "archived")], db')
        ∧ job_applications db' !! pk
          = Some (JobApplication.mk (JobApplication.job_site a)
                    (JobApplication.position a) (JobApplication.company a)
                    (JobApplication.job_url a) (JobApplication.description a)
                    (JobApplication.salary_range a) (JobApplication.status a)
                    (JobApplication.applied_date a) (JobApplication.notes a) true)
        ∧ only_application_differs pk db db')
     ∧ (∃ db', JobApplicationViewSet.unarchive pk db
               = (Ok [("status", "unarchived")], db')
        ∧ job_applications db' !! pk
          = Some (JobApplication.mk (JobApplication.job_site a)
                    (JobApplication.position a) (JobApplication.company a)
                    (JobApplication.job_url a) (JobApplication.description a)
                    (JobApplication.salary_range a) (JobApplication.status a)
                    (JobApplication.applied_date a) (JobApplication.notes a) false)
        ∧ only_application_differs pk db db')).
Proof.
  split.
  - intros site Hsite. split; eexists; (split; [|split]).
    + by apply mark_visited_found.
    + cbn. by rewrite lookup_insert_eq.
    + apply only_site_differs_insert.
    + by apply mark_completed_found.
    + cbn. by rewrite lookup_insert_eq.
    + apply only_site_differs_insert.
  - intros a Ha. split; eexists; (split; [|split]).
    + by apply archive_found.
    + cbn. by rewrite lookup_insert_eq.
    + apply only_application_differs_insert.
    + by apply unarchive_found.
    + cbn. by rewrite lookup_insert_eq.
    + apply only_application_differs_insert.
Qed.

Lemma transitions_frame_witness :
  job_sites acme_db !! 1 = Some acme_boards
  ∧ job_applications acme_db !! 1 = Some backend_engineer
  ∧ (∃ db', JobSiteViewSet.mark_visited 500 1 acme_db
            = (Ok [("status", "marked as visited")], db')
       ∧ JobSite.visited <$> job_sites db' !! 1 = Some true)
  ∧ (∃ db', JobApplicationViewSet.archive 1 acme_db
            = (Ok [("status", "archived")], db')
       ∧ JobApplication.status <$> job_applications db' !! 1 = Some "applied").
Proof.
  split; [reflexivity|]. split; [reflexivity|].
  destruct (transitions_frame acme_db 500 1) as [Hsite Happ].
  split.
  - destruct (Hsite acme_boards) as [(db' & Hrun & Hrow & _) _]; [reflexivity|].
    exists db'. split; [exact Hrun|]. rewrite Hrow. reflexivity.
  - destruct (Happ backend_engineer) as [(db' & Hrun & Hrow & _) _]; [reflexivity|].
    exists db'. split; [exact Hrun|]. rewrite Hrow. reflexivity.
Defined.

Section transitions_missing.
Implicit Types (db : DB) (now : datetime) (pk : Z).

Lemma get_object_missing {A B} (table : DB → gmap Z A) pk (k : A → View B) db :
  table db !! pk = None →
  (get_object table pk ≫= k) db = (Raise Http404, db).
Proof. intros Hnone. unfold mbind, View_bind, get_object. by rewrite Hnone. Qed.
End transitions_missing.

(** C9. A transition addressed to an id that matches no row raises
    [Http404] and hands back the database it was given: no row of any
    table is touched. *)
Theorem transitions_not_found (db : DB) (now : datetime) (pk : Z) :
  (job_sites db !! pk = None →
     JobSiteViewSet.mark_visited now pk db = (Raise Http404, db)
     ∧ JobSiteViewSet.mark_completed now pk db = (Raise Http404, db))
  ∧ (job_applications db !! pk = None →
     JobApplicationViewSet.archive pk db = (Raise Http404, db)
     ∧ JobApplicationViewSet.unarchive pk db = (Raise Http404, db)).
Proof.
  split; intros Hnone; split.
  - by apply (get_object_missing job_sites).
  - by apply (get_object_missing job_sites).
  - by apply (get_object_missing job_applications).
  - by apply (get_object_missing job_applications).
Qed.

Lemma transitions_not_found_witness :
  job_sites acme_db !! 7 = None
  ∧ job_applications acme_db !! 7 = None
  ∧ JobSiteViewSet.mark_visited 500 7 acme_db = (Raise Http404, acme_db)
  ∧ JobApplicationViewSet.archive 7 acme_db = (Raise Http404, acme_db).
Proof.
  split; [reflexivity|]. split; [reflexivity|].
  destruct (transitions_not_found acme_db 500 7) as [Hsite Happ].
  split.
  - apply Hsite. reflexivity.
  - apply Happ. reflexivity.
Defined.

(** Every call saves the site, and a save refreshes [updated_at]
    ([auto_now=True]): after marking site 1 at time 500 it reads 500,
    after marking it again at time 600 it reads 600. *)
Lemma mark_visited_refreshes_updated_at :
  let once := (JobSiteViewSet.mark_visited 500 1 acme_db).2 in
  let twice := (JobSiteViewSet.mark_visited 600 1 once).2 in
  JobSite.updated_at <$> job_sites once !! 1 = Some 500
  ∧ JobSite.updated_at <$> job_sites twice !! 1 = Some 600.
Proof. cbn zeta. split; reflexivity. Qed.

(** C8. [mark_visited] is idempotent.  For an existing site, applying it
    twice in succession succeeds both times with the same acknowledgement,
    not an error, and ends in the state a single application produces,
    [visited = True]: the database after the second call is the one a
    single call at that time yields.  Against the database after the first
    call it differs in nothing but the site's [updated_at], which every
    save refreshes to the time of the call; when both calls carry the same
    time the two databases are equal. *)
Theorem mark_visited_twice (db : DB) (t1 t2 : datetime) (pk : Z) (site : JobSite.t) :
  job_sites db !! pk = Some site →
  ∃ once twice visited_site,
    JobSiteViewSet.mark_visited t1 pk db
    = (Ok [("status", "marked as visited")], once)
    ∧ JobSiteViewSet.mark_visited t2 pk once
      = (Ok [("status", "marked as visited")], twice)
    ∧ job_sites once !! pk = Some visited_site
    ∧ JobSite.visited visited_site = true
    ∧ twice = with_job_sites
                (<[pk := JobSite.set_updated_at t2 visited_site]> (job_sites once))
                once
    ∧ twice = (JobSiteViewSet.mark_visited t2 pk db).2
    ∧ job_sites twice !! pk
      = Some (JobSite.mk (JobSite.name visited_site) (JobSite.url visited_site)
                (JobSite.site_type visited_site) (JobSite.country visited_site)
                (JobSite.language visited_site) (JobSite.work_area visited_site)
                (JobSite.description visited_site)
                (JobSite.is_completed visited_site) true
                (JobSite.created_at visited_site) t2)
    ∧ only_site_differs pk once twice
    ∧ (t2 = t1 → twice = once).
Proof.
  intros Hsite.
  set (visited_site := JobSite.set_updated_at t1 (JobSite.set_visited true site)).
  set (once := with_job_sites (<[pk := visited_site]> (job_sites db)) db).
  assert (job_sites once !! pk = Some visited_site) as Honce
    by (cbn; apply lookup_insert_eq).
  eexists once, _, visited_site. split_and!.
  - by apply mark_visited_found.
  - by apply mark_visited_found.
  - done.
  - done.
  - done.
  - rewrite (mark_visited_found db t2 pk site Hsite). cbn.
    unfold with_job_sites. cbn. by rewrite insert_insert_eq.
  - cbn. by rewrite lookup_insert_eq.
  - apply only_site_differs_insert.
  - intros ->. unfold with_job_sites, once. cbn.
    by rewrite insert_insert_eq.
Qed.

Lemma mark_visited_twice_witness :
  job_sites acme_db !! 1 = Some acme_boards
  ∧ ∃ once twice,
      JobSiteViewSet.mark_visited 500 1 acme_db
      = (Ok [("status", "marked as visited")], once)
      ∧ JobSiteViewSet.mark_visited 600 1 once
        = (Ok [("status", "marked as visited")], twice)
      ∧ twice = (JobSiteViewSet.mark_visited 600 1 acme_db).2.
Proof.
  split; [reflexivity|].
  destruct (mark_visited_twice acme_db 500 600 1 acme_boards)
    as (once & twice & s & H1 & H2 & _ & _ & _ & H3 & _); [reflexivity|].
  exists once, twice. split; [exact H1|]. split; [exact H2|exact H3].
Defined.

Lemma destroy_site_cascade_witness :
  job_sites acme_db !! 1 = Some acme_boards
  ∧ ∃ db', JobSiteViewSet.destroy 1 acme_db = (Ok tt, db')
      ∧ job_applications db' !! 1 = None
      ∧ application_timelines db' !! 1 = None.
Proof.
  split; [reflexivity|].
  destruct (destroy_site_cascade acme_db 1 acme_boards)
    as (db' & Hrun & _ & Happs & Hevents); [reflexivity|].
  exists db'. split; [exact Hrun|]. split.
  - apply eq_None_not_Some. intros [a Ha].
    apply Happs in Ha as [Ha Hne]. vm_compute in Ha.
    injection Ha as <-. apply Hne. reflexivity.
  - apply eq_None_not_Some. intros [e He].
    apply Hevents in He as [He Hnone]. vm_compute in He.
    injection He as <-. apply Hnone. exists backend_engineer.
    split; reflexivity.
Defined.

(** ** Ordered querysets and serializer output *)

Section ordering.
Context {A : Type} (key : A → datetime).

Global Instance descending_total : Total (descending key).
Proof. intros x y. unfold descending. lia. Qed.

Global Instance descending_transitive : Transitive (descending key).
Proof. intros x y z. unfold descending. lia. Qed.

Lemma order_by_desc_sorted (qs : list A) :
  StronglySorted (descending key) (order_by_desc key qs).
Proof. apply StronglySorted_merge_sort; apply _. Qed.

Lemma order_by_desc_perm (qs : list A) : order_by_desc key qs ≡ₚ qs.
Proof. apply merge_sort_Permutation. Qed.

Lemma order_by_desc_elem (qs : list A) x : x ∈ order_by_desc key qs ↔ x ∈ qs.
Proof. by rewrite order_by_desc_perm. Qed.
End ordering.

Lemma is_archived_false_iff (a : JobApplication.t) :
  JobApplication.is_archived a = false ↔ ¬ JobApplication.is_archived a = true.
Proof. destruct (JobApplication.is_archived a); naive_solver. Qed.

Lemma JobSite_applications_count db pk :
  count (JobSite_applications db pk)
  = Z.of_nat (size (filter (λ r, JobApplication.job_site r.2 = pk)
                           (job_applications db))).
Proof. apply count_filter_objects_all. Qed.

Lemma JobApplication_timeline_elem db pk k e :
  (k, e) ∈ JobApplication_timeline db pk
  ↔ application_timelines db !! k = Some e
    ∧ ApplicationTimeline.application e = pk.
Proof.
  unfold JobApplication_timeline.
  rewrite order_by_desc_elem, list_elem_of_filter, objects_all_lookup. tauto.
Qed.

Lemma JobApplication_timeline_NoDup db pk :
  NoDup (JobApplication_timeline db pk).*1.
Proof.
  unfold JobApplication_timeline. rewrite order_by_desc_perm.
  eapply (NoDup_fmap_2_strong fst); [|apply NoDup_filter, objects_all_NoDup].
  intros [k1 e1] [k2 e2] [_ H1]%list_elem_of_filter [_ H2]%list_elem_of_filter Hk.
  apply objects_all_lookup in H1, H2. cbn in Hk. subst k2. congruence.
Qed.

(** C10. The representation of a site carries the site's id and its
    eleven model fields as stored, and [applications_count], the number of
    applications whose [job_site] is that site; [retrieve] answers with
    this representation for an existing site. *)
Theorem site_representation_applications_count (db : DB) (pk : Z) (site : JobSite.t) :
  let r := JobSiteSerializer.to_representation db (pk, site) in
  JobSiteSerializer.applications_count r
  = Z.of_nat (size (filter (λ r, JobApplication.job_site r.2 = pk)
                           (job_applications db)))
  ∧ JobSiteSerializer.id r = pk
  ∧ JobSiteSerializer.name r = JobSite.name site
  ∧ JobSiteSerializer.url r = JobSite.url site
  ∧ JobSiteSerializer.site_type r = JobSite.site_type site
  ∧ JobSiteSerializer.country r = JobSite.country site
  ∧ JobSiteSerializer.language r = JobSite.language site
  ∧ JobSiteSerializer.work_area r = JobSite.work_area site
  ∧ JobSiteSerializer.description r = JobSite.description site
  ∧ JobSiteSerializer.is_completed r = JobSite.is_completed site
  ∧ JobSiteSerializer.visited r = JobSite.visited site
  ∧ JobSiteSerializer.created_at r = JobSite.created_at site
  ∧ JobSiteSerializer.updated_at r = JobSite.updated_at site
  ∧ (job_sites db !! pk = Some site → JobSiteViewSet.retrieve pk db = (Ok r, db)).
Proof.
  cbn zeta. split_and!; try reflexivity.
  - apply JobSite_applications_count.
  - intros Hsite. unfold JobSiteViewSet.retrieve, mbind, View_bind, get_object.
    by rewrite Hsite.
Qed.

Lemma site_representation_applications_count_witness :
  job_sites acme_db !! 1 = Some acme_boards
  ∧ ∃ r, JobSiteViewSet.retrieve 1 acme_db = (Ok r, acme_db)
      ∧ JobSiteSerializer.applications_count r = 1
      ∧ JobSiteSerializer.name r = "Acme Boards".
Proof.
  split; [reflexivity|].
  pose proof (site_representation_applications_count acme_db 1 acme_boards) as H.
  cbn zeta in H.
  destruct H as (Hcount & _ & Hname & _ & _ & _ & _ & _ & _ & _ & _ & _ & _ & Hget).
  eexists. split.
  - apply Hget. reflexivity.
  - split; [rewrite Hcount; reflexivity | exact Hname].
Defined.

Lemma timeline_representation db pk a :
  let r := JobApplicationSerializer.to_representation db (pk, a) in
  StronglySorted
    (λ e1 e2, ApplicationTimelineSerializer.date e2
              ≤ ApplicationTimelineSerializer.date e1)
    (JobApplicationSerializer.timeline r)
  ∧ NoDup (ApplicationTimelineSerializer.id <$> JobApplicationSerializer.timeline r)
  ∧ ∀ ev, ev ∈ JobApplicationSerializer.timeline r
      ↔ ∃ k e, application_timelines db !! k = Some e
               ∧ ApplicationTimeline.application e = pk
               ∧ ev = ApplicationTimelineSerializer.to_representation (k, e).
Proof.
  cbn. split_and!.
  - eapply StronglySorted_fmap; [|apply order_by_desc_sorted].
    intros x y Hxy. exact Hxy.
  - rewrite <-list_fmap_compose.
    apply (JobApplication_timeline_NoDup db pk).
  - intros ev. rewrite list_elem_of_fmap. split.
    + intros ([k e] & -> & Hin). apply JobApplication_timeline_elem in Hin.
      exists k, e. tauto.
    + intros (k & e & He & Hpk & ->). exists (k, e). split; [done|].
      by apply JobApplication_timeline_elem.
Qed.

(** C4. Whatever the database holds, the [timeline] action answers without
    changing it, with the representations of exactly the applications whose
    [is_archived] is False, each once, in descending order of
    [applied_date].  Each representation carries the application's events
    (those whose [application] is this one, each once) in descending order
    of [date], and in [job_site_name] the name of the site its [job_site]
    points at.

    The listing is the image of a list of stored rows: exactly the rows
    with [is_archived = False], each once, in descending order of their
    stored [applied_date].  The representation of a row shows its id and
    every model field as stored, and its [timeline] is the image of the
    stored events of that application, each once, in descending order of
    their stored [date], every event shown with its id and fields as
    stored. *)
Theorem timeline_lists_active_applications (db : DB) :
  ∃ l, JobApplicationViewSet.timeline db = (Ok l, db)
    ∧ (∀ pk a, job_applications db !! pk = Some a →
         JobApplicationSerializer.to_representation db (pk, a) ∈ l
         ↔ JobApplication.is_archived a = false)
    ∧ (∀ r, r ∈ l →
         ∃ pk a, job_applications db !! pk = Some a
                 ∧ r = JobApplicationSerializer.to_representation db (pk, a))
    ∧ NoDup (JobApplicationSerializer.id <$> l)
    ∧ StronglySorted
        (λ r1 r2, JobApplicationSerializer.applied_date r2
                  ≤ JobApplicationSerializer.applied_date r1) l
    ∧ (∀ r, r ∈ l →
         StronglySorted
           (λ e1 e2, ApplicationTimelineSerializer.date e2
                     ≤ ApplicationTimelineSerializer.date e1)
           (JobApplicationSerializer.timeline r)
         ∧ NoDup (ApplicationTimelineSerializer.id
                    <$> JobApplicationSerializer.timeline r)
         ∧ (∀ ev, ev ∈ JobApplicationSerializer.timeline r
              ↔ ∃ k e, application_timelines db !! k = Some e
                       ∧ ApplicationTimeline.application e
                         = JobApplicationSerializer.id r
                       ∧ ev = ApplicationTimelineSerializer.to_representation (k, e))
         ∧ JobApplicationSerializer.job_site_name r
           = JobSite.name <$> job_sites db !! JobApplicationSerializer.job_site r)
    ∧ (foreign_keys_valid db →
       ∀ r, r ∈ l →
         ∃ site, job_sites db !! JobApplicationSerializer.job_site r = Some site
                 ∧ JobApplicationSerializer.job_site_name r
                   = Some (JobSite.name site))
    ∧ (∃ rows : list (Z * JobApplication.t),
         l = JobApplicationSerializer.to_representation db <$> rows
         ∧ NoDup rows.*1
         ∧ (∀ pk a, (pk, a) ∈ rows
              ↔ job_applications db !! pk = Some a
                ∧ JobApplication.is_archived a = false)
         ∧ StronglySorted
             (λ x y, JobApplication.applied_date y.2 ≤ JobApplication.applied_date x.2)
             rows)
    ∧ (∀ pk a,
         let r := JobApplicationSerializer.to_representation db (pk, a) in
         JobApplicationSerializer.id r = pk
         ∧ JobApplicationSerializer.job_site r = JobApplication.job_site a
         ∧ JobApplicationSerializer.position r = JobApplication.position a
         ∧ JobApplicationSerializer.company r = JobApplication.company a
         ∧ JobApplicationSerializer.job_url r = JobApplication.job_url a
         ∧ JobApplicationSerializer.description r = JobApplication.description a
         ∧ JobApplicationSerializer.salary_range r = JobApplication.salary_range a
         ∧ JobApplicationSerializer.status r = JobApplication.status a
         ∧ JobApplicationSerializer.applied_date r = JobApplication.applied_date a
         ∧ JobApplicationSerializer.notes r = JobApplication.notes a
         ∧ JobApplicationSerializer.is_archived r = JobApplication.is_archived a
         ∧ JobApplicationSerializer.job_site_name r
           = JobSite.name <$> job_sites db !! JobApplication.job_site a
         ∧ ∃ events : list (Z * ApplicationTimeline.t),
             JobApplicationSerializer.timeline r
             = ApplicationTimelineSerializer.to_representation <$> events
             ∧ NoDup events.*1
             ∧ (∀ k e, (k, e) ∈ events
                  ↔ application_timelines db !! k = Some e
                    ∧ ApplicationTimeline.application e = pk)
             ∧ StronglySorted
                 (λ x y, ApplicationTimeline.date y.2 ≤ ApplicationTimeline.date x.2)
                 events)
    ∧ (∀ k e,
         let ev := ApplicationTimelineSerializer.to_representation (k, e) in
         ApplicationTimelineSerializer.id ev = k
         ∧ ApplicationTimelineSerializer.application ev
           = ApplicationTimeline.application e
         ∧ ApplicationTimelineSerializer.event_type ev
           = ApplicationTimeline.event_type e
         ∧ ApplicationTimelineSerializer.title ev = ApplicationTimeline.title e
         ∧ ApplicationTimelineSerializer.description ev
           = ApplicationTimeline.description e
         ∧ ApplicationTimelineSerializer.date ev = ApplicationTimeline.date e).
Proof.
  eexists. split; [reflexivity|].
  set (active := filter (λ r, JobApplication.is_archived r.2 = false)
                        (objects_all (job_applications db))).
  set (qs := order_by_desc (λ r, JobApplication.applied_date r.2) active).
  assert (∀ pk a, (pk, a) ∈ qs
            ↔ job_applications db !! pk = Some a
              ∧ JobApplication.is_archived a = false) as Hqs.
  { intros pk a. unfold qs, active.
    rewrite order_by_desc_elem, list_elem_of_filter, objects_all_lookup.
    cbn. tauto. }
  assert (∀ r, r ∈ JobApplicationSerializer.to_representation db <$> qs →
            ∃ pk a, job_applications db !! pk = Some a
                    ∧ JobApplication.is_archived a = false
                    ∧ r = JobApplicationSerializer.to_representation db (pk, a))
    as Hrepr.
  { intros r ([pk a] & -> & Hin)%list_elem_of_fmap. apply Hqs in Hin.
    exists pk, a. tauto. }
  split_and!.
  - intros pk a Ha. split.
    + intros (pk' & a' & Ha' & Harch & Heq)%Hrepr.
      assert (pk' = pk) as ->
        by exact (f_equal JobApplicationSerializer.id (eq_sym Heq)).
      congruence.
    + intros Harch. apply list_elem_of_fmap. exists (pk, a). split; [done|].
      by apply Hqs.
  - intros r (pk & a & Ha & _ & ->)%Hrepr. eauto.
  - rewrite <-list_fmap_compose.
    change (NoDup (qs.*1)). unfold qs. rewrite order_by_desc_perm.
    eapply (NoDup_fmap_2_strong fst); [|apply NoDup_filter, objects_all_NoDup].
    intros [k1 a1] [k2 a2] [_ H1]%list_elem_of_filter [_ H2]%list_elem_of_filter Hk.
    apply objects_all_lookup in H1, H2. cbn in Hk. subst k2. congruence.
  - eapply StronglySorted_fmap; [|apply order_by_desc_sorted].
    intros x y Hxy. exact Hxy.
  - intros r (pk & a & _ & _ & ->)%Hrepr.
    destruct (timeline_representation db pk a) as (Hsorted & Hnodup & Helem).
    split_and!; done.
  - intros [Hfk _] r (pk & a & Ha & _ & ->)%Hrepr.
    destruct (Hfk pk a Ha) as [site Hsite]. exists site. split; [done|].
    cbn. unfold JobApplicationSerializer.get_job_site_name. cbn.
    by rewrite Hsite.
  - exists qs. split_and!.
    + reflexivity.
    + unfold qs. rewrite order_by_desc_perm.
      eapply (NoDup_fmap_2_strong fst); [|apply NoDup_filter, objects_all_NoDup].
      intros [k1 a1] [k2 a2] [_ H1]%list_elem_of_filter [_ H2]%list_elem_of_filter
        Hk.
      apply objects_all_lookup in H1, H2. cbn in Hk. subst k2. congruence.
    + exact Hqs.
    + exact (order_by_desc_sorted (λ r : Z * JobApplication.t,
                                     JobApplication.applied_date r.2) active).
  - intros pk a. cbn zeta. split_and!; try reflexivity.
    exists (JobApplication_timeline db pk). split_and!.
    + reflexivity.
    + apply JobApplication_timeline_NoDup.
    + intros k e. apply JobApplication_timeline_elem.
    + exact (order_by_desc_sorted
               (λ r : Z * ApplicationTimeline.t, ApplicationTimeline.date r.2) _).
  - intros k e. cbn zeta. split_and!; reflexivity.
Qed.


Lemma timeline_lists_active_applications_witness :
  foreign_keys_valid acme_db
  ∧ ∃ l, JobApplicationViewSet.timeline acme_db = (Ok l, acme_db)
      ∧ ∀ r, r ∈ l → is_Some (JobApplicationSerializer.job_site_name r).
Proof.
  assert (foreign_keys_valid acme_db) as Hfk
    by (apply (bool_decide_unpack _); vm_compute; exact I).
  split; [exact Hfk|].
  destruct (timeline_lists_active_applications acme_db)
    as (l & Hrun & _ & _ & _ & _ & _ & Hname & _).
  exists l. split; [exact Hrun|].
  intros r Hr. destruct (Hname Hfk r Hr) as (site & _ & ->).
  by exists (JobSite.name site).
Defined.

(** ** Creating a record under a parent that does not exist *)

Lemma run_field_unknown_pk {A} (partial required : bool) (queryset : gmap Z A) pk :
  queryset !! pk = None →
  run_field partial required (PrimaryKeyRelatedField queryset) (Some pk) = Failed.
Proof. intros Hnone. unfold run_field, PrimaryKeyRelatedField. by rewrite Hnone. Qed.

Lemma JobApplication_run_validation_unknown_site `{!RestFramework}
    (partial : bool) (data : JobApplicationData.t) (db : DB) (pk : Z) :
  JobApplicationData.job_site data = Some pk →
  job_sites db !! pk = None →
  ∃ errors, JobApplicationSerializer.run_validation partial data db
            = inl ("job_site" :: errors).
Proof.
  intros Hdata Hnone. unfold JobApplicationSerializer.run_validation.
  rewrite Hdata, (run_field_unknown_pk _ _ _ _ Hnone).
  cbn [error concat app]. eauto.
Qed.

(** C6, as stated, fails: the serializer validates [job_site] against the
    existing sites and rejects an unknown id with a [ValidationError]
    (HTTP 400) that names the field, not with [Http404]. *)
Lemma create_application_unknown_site_is_400 :
  job_sites acme_db !! 7 = None
  ∧ JobApplicationViewSet.create (H := plain_text_fields) 500
      application_for_site_7 acme_db
    = (Raise (ValidationError ["job_site"]), acme_db)
  ∧ JobApplicationViewSet.create (H := plain_text_fields) 500
      application_for_site_7 acme_db
    ≠ (Raise Http404, acme_db).
Proof.
  split; [reflexivity|].
  assert (JobApplicationViewSet.create (H := plain_text_fields) 500
            application_for_site_7 acme_db
          = (Raise (ValidationError ["job_site"]), acme_db)) as Hrun
    by (vm_compute; reflexivity).
  split; [exact Hrun|]. rewrite Hrun. discriminate.
Qed.

(** C6, amended.  Creating an application whose [job_site] is an id that
    matches no site raises a [ValidationError] that lists [job_site], in
    place of [Http404], and hands back the database it was given: no
    record is created. *)
Theorem create_application_unknown_site `{!RestFramework}
    (now : datetime) (data : JobApplicationData.t) (db : DB) (pk : Z) :
  JobApplicationData.job_site data = Some pk →
  job_sites db !! pk = None →
  ∃ errors, JobApplicationViewSet.create now data db
            = (Raise (ValidationError errors), db)
    ∧ "job_site" ∈ errors.
Proof.
  intros Hdata Hnone.
  destruct (JobApplication_run_validation_unknown_site false data db pk Hdata Hnone)
    as [errors Herr].
  exists ("job_site" :: errors). split; [|apply list_elem_of_here].
  unfold JobApplicationViewSet.create, mbind, View_bind, is_valid.
  by rewrite Herr.
Qed.

Lemma create_application_unknown_site_witness :
  JobApplicationData.job_site application_for_site_7 = Some 7
  ∧ job_sites acme_db !! 7 = None
  ∧ ∃ errors, JobApplicationViewSet.create (H := plain_text_fields) 500
                application_for_site_7 acme_db
              = (Raise (ValidationError errors), acme_db)
      ∧ "job_site" ∈ errors.
Proof.
  split; [reflexivity|]. split; [reflexivity|].
  apply (create_application_unknown_site (H := plain_text_fields)
           500 application_for_site_7 acme_db 7); reflexivity.
Defined.

(** ** What a request can do to the tables *)

Section evolution.
Context `{!RestFramework}.
Implicit Types (db : DB) (pk : Z).

Lemma evolves_refl db : evolves db db.
Proof.
  unfold evolves. split_and!; try lia; try tauto.
  intros k e' He. left. eauto.
Qed.

Lemma evolves_save_site db now pk site (site' : JobSite.t) :
  job_sites db !! pk = Some site →
  evolves db (JobSite_save now pk site' db).2.
Proof.
  intros Hsite. unfold evolves. cbn. split_and!; try lia; try tauto.
  - intros k Hk. left. destruct (decide (k = pk)) as [->|Hne]; [eauto|].
    by rewrite lookup_insert_ne in Hk.
  - intros k e' He. left. eauto.
Qed.

Lemma evolves_save_application db pk a (a' : JobApplication.t) :
  job_applications db !! pk = Some a →
  evolves db (JobApplication_save pk a' db).2.
Proof.
  intros Ha. unfold evolves. cbn. split_and!; try lia; try tauto.
  - intros k Hk. left. destruct (decide (k = pk)) as [->|Hne]; [eauto|].
    by rewrite lookup_insert_ne in Hk.
  - intros k e' He. left. eauto.
Qed.

Lemma evolves_save_event db pk e (e' : ApplicationTimeline.t) :
  application_timelines db !! pk = Some e →
  ApplicationTimeline.date e' = ApplicationTimeline.date e →
  evolves db (ApplicationTimeline_save pk e' db).2.
Proof.
  intros He Hdate. unfold evolves. cbn. split_and!; try lia; try tauto.
  intros k e'' Hk. left. destruct (decide (k = pk)) as [->|Hne].
  - rewrite lookup_insert_eq in Hk. injection Hk as <-. eauto.
  - rewrite lookup_insert_ne in Hk by done. eauto.
Qed.

Lemma evolves_create_site db now site :
  evolves db (JobSite_create now site db).2.
Proof.
  unfold evolves. cbn. split_and!; try lia; try tauto.
  - intros k Hk. destruct (decide (k = seq_job_site db + 1)) as [->|Hne].
    + right. lia.
    + left. by rewrite lookup_insert_ne in Hk.
  - intros k e' He. left. eauto.
Qed.

Lemma evolves_create_application db now a :
  evolves db (JobApplication_create now a db).2.
Proof.
  unfold evolves. cbn. split_and!; try lia; try tauto.
  - intros k Hk. destruct (decide (k = seq_job_application db + 1)) as [->|Hne].
    + right. lia.
    + left. by rewrite lookup_insert_ne in Hk.
  - intros k e' He. left. eauto.
Qed.

Lemma evolves_create_event db now e :
  evolves db (ApplicationTimeline_create now e db).2.
Proof.
  unfold evolves. cbn. split_and!; try lia; try tauto.
  intros k e' Hk.
  destruct (decide (k = seq_application_timeline db + 1)) as [->|Hne].
  - right. lia.
  - left. rewrite lookup_insert_ne in Hk by done. eauto.
Qed.

Lemma evolves_shrink db (sites : gmap Z JobSite.t)
    (applications : gmap Z JobApplication.t)
    (events : gmap Z ApplicationTimeline.t) :
  sites ⊆ job_sites db →
  applications ⊆ job_applications db →
  events ⊆ application_timelines db →
  evolves db
    (mkDB sites applications events
          (seq_job_site db) (seq_job_application db) (seq_application_timeline db)).
Proof.
  intros Hsites Happs Hevents. unfold evolves. cbn. split_and!; try lia.
  - intros k Hk. left. by eapply lookup_weaken_is_Some.
  - intros k Hk. left. by eapply lookup_weaken_is_Some.
  - intros k e' He. left. exists e'. split; [|done]. by eapply lookup_weaken.
Qed.

Lemma evolves_delete_site db pk site : evolves db (JobSite_delete pk site db).2.
Proof. apply evolves_shrink; by apply map_subseteq_difference_l. Qed.

Lemma evolves_delete_application db pk a :
  evolves db (JobApplication_delete pk a db).2.
Proof. apply evolves_shrink; [done|by apply map_subseteq_difference_l..]. Qed.

Lemma evolves_delete_event db pk e :
  evolves db (ApplicationTimeline_delete pk e db).2.
Proof. apply evolves_shrink; [done..|by apply map_subseteq_difference_l]. Qed.

Lemma serve_evolves db req : evolves db (serve db req).
Proof.
  destruct req as [now req]. unfold serve. cbn [fst snd].
  destruct req; unfold dispatch, discard,
    JobSiteViewSet.create, JobSiteViewSet.partial_update, JobSiteViewSet.update,
    JobSiteViewSet.destroy, JobSiteViewSet.mark_visited,
    JobSiteViewSet.mark_completed,
    JobApplicationViewSet.create, JobApplicationViewSet.partial_update,
    JobApplicationViewSet.update, JobApplicationViewSet.destroy,
    JobApplicationViewSet.archive, JobApplicationViewSet.unarchive,
    ApplicationTimelineViewSet.create, ApplicationTimelineViewSet.partial_update,
    ApplicationTimelineViewSet.update, ApplicationTimelineViewSet.destroy,
    mbind, View_bind, get_object, is_valid, query, mret, View_ret.
  all: repeat case_match; simplify_eq/=; try apply evolves_refl.
  all: try match goal with
    | H : _ ?db = (_, ?db') |- evolves ?db ?db' =>
        apply (f_equal snd) in H; cbn [snd] in H; rewrite <-H
    end.
  all: try first
    [ apply evolves_create_site | apply evolves_create_application
    | apply evolves_create_event | apply evolves_delete_site
    | apply evolves_delete_application | apply evolves_delete_event
    | by eapply evolves_save_site | by eapply evolves_save_application
    | by eapply evolves_save_event ].
Qed.

Lemma evolves_sequences_valid db db' :
  evolves db db' → sequences_valid db → sequences_valid db'.
Proof.
  intros (Hs & Ha & Ht & Hsites & Happs & Hevents) (Vs & Va & Vt).
  unfold sequences_valid. rewrite !map_Forall_lookup in *. split_and!.
  - intros k x Hk. destruct (Hsites k) as [[y Hy]|?]; [eauto| |lia].
    specialize (Vs k y Hy). cbn in Vs. lia.
  - intros k x Hk. destruct (Happs k) as [[y Hy]|?]; [eauto| |lia].
    specialize (Va k y Hy). cbn in Va. lia.
  - intros k x Hk. destruct (Hevents k x Hk) as [(y & Hy & _)|?]; [|lia].
    specialize (Vt k y Hy). cbn in Vt. lia.
Qed.

Lemma serve_sequences_valid db req :
  sequences_valid db → sequences_valid (serve db req).
Proof. apply evolves_sequences_valid, serve_evolves. Qed.

End evolution.

(** ** Foreign keys stay valid *)

Section foreign_keys.
Context `{!RestFramework}.
Implicit Types (db : DB) (pk : Z).

Lemma run_field_pk_validated {A} (partial : bool) (queryset : gmap Z A)
    (data : option Z) (k : Z) :
  validated (run_field partial true (PrimaryKeyRelatedField queryset) data) = Some k →
  is_Some (queryset !! k).
Proof.
  unfold run_field, PrimaryKeyRelatedField.
  destruct data as [raw|]; [|by destruct partial].
  destruct (queryset !! raw) eqn:Hraw; cbn; [|done].
  intros [= <-]. eauto.
Qed.

Lemma run_field_required {A B} (f : A → option B) (data : option A) name :
  error name (run_field false true f data) = [] →
  is_Some (validated (run_field false true f data)).
Proof.
  unfold run_field. destruct data as [raw|]; [|done].
  destruct (f raw); cbn; [eauto|done].
Qed.

Lemma JobApplication_run_validation_job_site partial data db v :
  JobApplicationSerializer.run_validation partial data db = inr v →
  (∀ k, JobApplicationData.job_site v = Some k → is_Some (job_sites db !! k))
  ∧ (partial = false → is_Some (JobApplicationData.job_site v)).
Proof.
  unfold JobApplicationSerializer.run_validation. cbv zeta.
  destruct (concat _) eqn:E; [|discriminate]. intros [= <-].
  cbn [JobApplicationData.job_site]. split.
  - intros k. apply run_field_pk_validated.
  - intros ->. cbn [concat] in E. apply app_eq_nil in E as [E _].
    by eapply run_field_required.
Qed.

Lemma ApplicationTimeline_run_validation_application partial data db v :
  ApplicationTimelineSerializer.run_validation partial data db = inr v →
  (∀ k, ApplicationTimelineData.application v = Some k →
        is_Some (job_applications db !! k))
  ∧ (partial = false → is_Some (ApplicationTimelineData.application v)).
Proof.
  unfold ApplicationTimelineSerializer.run_validation. cbv zeta.
  destruct (concat _) eqn:E; [|discriminate]. intros [= <-].
  cbn [ApplicationTimelineData.application]. split.
  - intros k. apply run_field_pk_validated.
  - intros ->. cbn [concat] in E. apply app_eq_nil in E as [E _].
    by eapply run_field_required.
Qed.

Lemma set_attrs_job_site_valid partial data db v instance :
  JobApplicationSerializer.run_validation partial data db = inr v →
  partial = false ∨ is_Some (job_sites db !! JobApplication.job_site instance) →
  is_Some (job_sites db
             !! JobApplication.job_site (JobApplicationSerializer.set_attrs instance v)).
Proof.
  intros [Hsome Hreq]%JobApplication_run_validation_job_site Hcase. cbn.
  destruct (JobApplicationData.job_site v) as [k|] eqn:Hk; cbn; [by apply Hsome|].
  destruct Hcase as [->|Hinst]; [|done]. by destruct Hreq.
Qed.

Lemma set_attrs_application_valid partial data db v instance :
  ApplicationTimelineSerializer.run_validation partial data db = inr v →
  partial = false
  ∨ is_Some (job_applications db !! ApplicationTimeline.application instance) →
  is_Some (job_applications db
             !! ApplicationTimeline.application
                  (ApplicationTimelineSerializer.set_attrs instance v)).
Proof.
  intros [Hsome Hreq]%ApplicationTimeline_run_validation_application Hcase. cbn.
  destruct (ApplicationTimelineData.application v) as [k|] eqn:Hk; cbn;
    [by apply Hsome|].
  destruct Hcase as [->|Hinst]; [|done]. by destruct Hreq.
Qed.

Lemma fk_insert_site db k (site : JobSite.t) seq :
  foreign_keys_valid db →
  foreign_keys_valid
    (mkDB (<[k := site]> (job_sites db)) (job_applications db)
          (application_timelines db)
          seq (seq_job_application db) (seq_application_timeline db)).
Proof.
  intros [Happs Hevents]. split; [|done]. cbn.
  intros pk a Ha. destruct (Happs pk a Ha) as [s Hs]. cbn in *.
  destruct (decide (JobApplication.job_site a = k)) as [->|Hne].
  - rewrite lookup_insert_eq. eauto.
  - rewrite lookup_insert_ne by done. eauto.
Qed.

Lemma fk_insert_application db k (a : JobApplication.t) seq :
  foreign_keys_valid db →
  is_Some (job_sites db !! JobApplication.job_site a) →
  foreign_keys_valid
    (mkDB (job_sites db) (<[k := a]> (job_applications db))
          (application_timelines db)
          (seq_job_site db) seq (seq_application_timeline db)).
Proof.
  intros [Happs Hevents] Hsite. split; cbn.
  - apply map_Forall_insert_2; done.
  - intros pk e He. destruct (Hevents pk e He) as [a' Ha']. cbn in *.
    destruct (decide (ApplicationTimeline.application e = k)) as [->|Hne].
    + rewrite lookup_insert_eq. eauto.
    + rewrite lookup_insert_ne by done. eauto.
Qed.

Lemma fk_insert_event db k (e : ApplicationTimeline.t) seq :
  foreign_keys_valid db →
  is_Some (job_applications db !! ApplicationTimeline.application e) →
  foreign_keys_valid
    (mkDB (job_sites db) (job_applications db)
          (<[k := e]> (application_timelines db))
          (seq_job_site db) (seq_job_application db) seq).
Proof.
  intros [Happs Hevents] Happ. split; cbn; [done|].
  apply map_Forall_insert_2; done.
Qed.

Lemma fk_delete_site db pk site :
  foreign_keys_valid db → foreign_keys_valid (JobSite_delete pk site db).2.
Proof.
  intros [Happs Hevents].
  destruct (JobSite_delete_spec db pk site)
    as (db' & Hrun & Hs & Ha & He & _).
  rewrite Hrun. cbn [snd]. split.
  - intros k a [Hk Hne]%Ha. destruct (Happs k a Hk) as [s Hsite]. cbn in *.
    exists s. apply Hs. split; [done|congruence].
  - intros k e [Hk Hnone]%He. destruct (Hevents k e Hk) as [a Happ]. cbn in *.
    exists a. apply Ha. split; [done|]. intros Hpk. apply Hnone. eauto.
Qed.

Lemma fk_delete_application db pk a :
  foreign_keys_valid db → foreign_keys_valid (JobApplication_delete pk a db).2.
Proof.
  intros [Happs Hevents]. split; cbn.
  - intros k a' [Hk _]%lookup_difference_Some. exact (Happs k a' Hk).
  - intros k e [Hk Hnot]%lookup_difference_Some_not.
    destruct (Hevents k e Hk) as [a' Ha']. cbn in *. exists a'.
    apply lookup_difference_Some. split; [done|].
    apply lookup_singleton_None. intros ->. apply Hnot. exists e.
    apply collect_timelines_lookup. split; [done|].
    rewrite lookup_singleton_eq. eauto.
Qed.

Lemma fk_delete_event db pk e :
  foreign_keys_valid db → foreign_keys_valid (ApplicationTimeline_delete pk e db).2.
Proof.
  intros [Happs Hevents]. split; cbn; [done|].
  intros k e' [Hk _]%lookup_difference_Some. exact (Hevents k e' Hk).
Qed.

Lemma fk_lookup_application db pk a :
  foreign_keys_valid db → job_applications db !! pk = Some a →
  is_Some (job_sites db !! JobApplication.job_site a).
Proof. intros [Happs _] Ha. exact (Happs pk a Ha). Qed.

Lemma fk_lookup_event db pk e :
  foreign_keys_valid db → application_timelines db !! pk = Some e →
  is_Some (job_applications db !! ApplicationTimeline.application e).
Proof. intros [_ Hevents] He. exact (Hevents pk e He). Qed.

Lemma serve_foreign_keys_valid db req :
  foreign_keys_valid db → foreign_keys_valid (serve db req).
Proof.
  intros Hfk. destruct req as [now req]. unfold serve. cbn [fst snd].
  destruct req; unfold dispatch, discard,
    JobSiteViewSet.create, JobSiteViewSet.partial_update, JobSiteViewSet.update,
    JobSiteViewSet.destroy, JobSiteViewSet.mark_visited,
    JobSiteViewSet.mark_completed,
    JobApplicationViewSet.create, JobApplicationViewSet.partial_update,
    JobApplicationViewSet.update, JobApplicationViewSet.destroy,
    JobApplicationViewSet.archive, JobApplicationViewSet.unarchive,
    ApplicationTimelineViewSet.create, ApplicationTimelineViewSet.partial_update,
    ApplicationTimelineViewSet.update, ApplicationTimelineViewSet.destroy,
    mbind, View_bind, get_object, is_valid, query, mret, View_ret.
  all: repeat case_match; simplify_eq/=; try done.
  all: try match goal with
    | H : _ ?db = (_, ?db') |- foreign_keys_valid ?db' =>
        apply (f_equal snd) in H; cbn [snd] in H; rewrite <-H
    end.
  all: try first
    [ by apply fk_delete_site | by apply fk_delete_application
    | by apply fk_delete_event | by apply fk_insert_site ].
  - apply fk_insert_application; [done|].
    eapply set_attrs_job_site_valid; [eassumption|by left].
  - apply fk_insert_application; [done|].
    eapply set_attrs_job_site_valid; [eassumption|].
    right. by eapply fk_lookup_application.
  - apply fk_insert_application; [done|].
    eapply set_attrs_job_site_valid; [eassumption|].
    right. by eapply fk_lookup_application.
  - apply fk_insert_application; [done|]. cbn. by eapply fk_lookup_application.
  - apply fk_insert_application; [done|]. cbn. by eapply fk_lookup_application.
  - apply fk_insert_event; [done|].
    eapply set_attrs_application_valid; [eassumption|by left].
  - apply fk_insert_event; [done|].
    eapply set_attrs_application_valid; [eassumption|].
    right. by eapply fk_lookup_event.
  - apply fk_insert_event; [done|].
    eapply set_attrs_application_valid; [eassumption|].
    right. by eapply fk_lookup_event.
Qed.

Lemma serve_consistent db req : consistent db → consistent (serve db req).
Proof.
  intros [Hfk Hseq]. split.
  - by apply serve_foreign_keys_valid.
  - eapply evolves_sequences_valid; [apply serve_evolves|done].
Qed.

Lemma serve_all_consistent db reqs : consistent db → consistent (serve_all db reqs).
Proof.
  revert db. induction reqs as [|req reqs IH]; intros db Hdb; [done|].
  cbn. by apply IH, serve_consistent.
Qed.

Lemma empty_db_consistent : consistent empty_db.
Proof.
  unfold consistent, foreign_keys_valid, sequences_valid. cbn.
  split_and!; apply map_Forall_empty.
Qed.

(** Every database the API can reach from the empty one is consistent. *)
Lemma reachable_consistent reqs : consistent (serve_all empty_db reqs).
Proof. apply serve_all_consistent, empty_db_consistent. Qed.
End foreign_keys.




(** ** The two walk-throughs of the system description *)

Example walkthrough_archive :
  let db1 := serve (H := plain_text_fields) empty_db
                   (100, POST_job_sites acme_boards_data) in
  let db2 := serve (H := plain_text_fields) db1
                   (200, POST_applications backend_engineer_data) in
  let db3 := serve (H := plain_text_fields) db2
                   (300, POST_application_archive 1) in
  JobSite.name <$> job_sites db1 !! 1 = Some "Acme Boards"
  ∧ job_applications db2 !! 1 = Some backend_engineer
  ∧ JobApplication.status <$> job_applications db3 !! 1 = Some "applied"
  ∧ JobApplication.is_archived <$> job_applications db3 !! 1 = Some true
  ∧ (JobApplicationViewSet.timeline db3).1 = Ok []
  ∧ (JobApplicationViewSet.stats db3).1
    = Ok (JobApplicationViewSet.mk 1 [("applied", 1)] 1).
Proof. vm_compute. repeat split. Qed.

Example walkthrough_dashboard :
  (JobSiteViewSet.dashboard_stats two_sites_db).1 = Ok (JobSiteViewSet.mk 2 1 1 1).
Proof. vm_compute. reflexivity. Qed.

(** A site marked completed without being visited is still pending: here
    more sites are completed than visited. *)
Example dashboard_completed_unvisited :
  let db := (JobSiteViewSet.mark_completed 500 1 acme_db).2 in
  (JobSiteViewSet.dashboard_stats db).1 = Ok (JobSiteViewSet.mk 1 0 1 1).
Proof. vm_compute. reflexivity. Qed.

(** * Further properties of the views *)

(** ** Failure leaves the tables alone *)

(** X1. A request that is answered with an exception, be it [Http404] or
    a [ValidationError], leaves the database exactly as it was: every
    view raises before its first write. *)
Theorem failed_request_changes_nothing `{!RestFramework}
    (now : datetime) (req : Request) (db : DB) (e : APIException) :
  (dispatch now req db).1 = Raise e →
  (dispatch now req db).2 = db.
Proof.
  destruct req; unfold dispatch, discard,
    JobSiteViewSet.create, JobSiteViewSet.partial_update, JobSiteViewSet.update,
    JobSiteViewSet.destroy, JobSiteViewSet.mark_visited,
    JobSiteViewSet.mark_completed,
    JobApplicationViewSet.create, JobApplicationViewSet.partial_update,
    JobApplicationViewSet.update, JobApplicationViewSet.destroy,
    JobApplicationViewSet.archive, JobApplicationViewSet.unarchive,
    ApplicationTimelineViewSet.create, ApplicationTimelineViewSet.partial_update,
    ApplicationTimelineViewSet.update, ApplicationTimelineViewSet.destroy,
    mbind, View_bind, get_object, is_valid, query, mret, View_ret.
  all: repeat case_match; simplify_eq/=; try done.
  all: match goal with
    | H : _ ?db = (Raise _, _) |- _ => discriminate H
    end.
Qed.

Lemma failed_request_changes_nothing_witness :
  (dispatch (H := plain_text_fields) 500
     (POST_applications application_for_site_7) acme_db).1
  = Raise (ValidationError ["job_site"])
  ∧ (dispatch (H := plain_text_fields) 500
       (POST_applications application_for_site_7) acme_db).2
    = acme_db.
Proof.
  assert ((dispatch (H := plain_text_fields) 500
             (POST_applications application_for_site_7) acme_db).1
          = Raise (ValidationError ["job_site"])) as Hraise
    by (vm_compute; reflexivity).
  split; [exact Hraise|].
  exact (failed_request_changes_nothing (H := plain_text_fields) 500
           (POST_applications application_for_site_7) acme_db _ Hraise).
Defined.

(** ** Referential integrity over request sequences *)

(** X2. Starting from a consistent database, no sequence of requests
    leaves an orphan behind: afterwards every application still points at
    an existing site and every timeline event at an existing
    application. *)
Theorem requests_keep_foreign_keys `{!RestFramework}
    (db : DB) (reqs : list (datetime * Request)) :
  consistent db →
  let db' := serve_all db reqs in
  (∀ pk a, job_applications db' !! pk = Some a →
           is_Some (job_sites db' !! JobApplication.job_site a))
  ∧ (∀ pk e, application_timelines db' !! pk = Some e →
             is_Some (job_applications db' !! ApplicationTimeline.application e)).
Proof.
  intros Hdb. destruct (serve_all_consistent db reqs Hdb) as [[Happs Hevents] _].
  split.
  - intros pk a Ha. exact (Happs pk a Ha).
  - intros pk e He. exact (Hevents pk e He).
Qed.

Lemma requests_keep_foreign_keys_witness :
  consistent acme_db
  ∧ ∀ pk e,
      application_timelines
        (serve_all (H := plain_text_fields) acme_db
           [(500, PATCH_timeline 1 event_rejected); (600, DELETE_application 1)])
        !! pk = Some e →
      is_Some (job_applications
                 (serve_all (H := plain_text_fields) acme_db
                    [(500, PATCH_timeline 1 event_rejected);
                     (600, DELETE_application 1)])
                 !! ApplicationTimeline.application e).
Proof.
  assert (consistent acme_db) as Hdb
    by (apply (bool_decide_unpack _); vm_compute; exact I).
  split; [exact Hdb|].
  exact (proj2 (requests_keep_foreign_keys (H := plain_text_fields) acme_db
                  [(500, PATCH_timeline 1 event_rejected);
                   (600, DELETE_application 1)] Hdb)).
Defined.

(** ** Deleting an application *)

(** X3. Deleting an existing application [pk] succeeds and removes
    exactly that application and the timeline events whose [application]
    is [pk]; the sites and every other application and event stay as they
    are. *)
Theorem destroy_application_cascade (db : DB) (pk : Z) (a : JobApplication.t) :
  job_applications db !! pk = Some a →
  ∃ db', JobApplicationViewSet.destroy pk db = (Ok tt, db')
    ∧ job_sites db' = job_sites db
    ∧ (∀ k a', job_applications db' !! k = Some a'
         ↔ job_applications db !! k = Some a' ∧ k ≠ pk)
    ∧ (∀ k e, application_timelines db' !! k = Some e
         ↔ application_timelines db !! k = Some e
           ∧ ApplicationTimeline.application e ≠ pk).
Proof.
  intros Ha. eexists. split.
  { unfold JobApplicationViewSet.destroy, mbind, View_bind, get_object.
    rewrite Ha. reflexivity. }
  cbn. split_and!; [done| |].
  - intros k a'. rewrite lookup_difference_Some, lookup_singleton_None.
    split; intros [? ?]; split; congruence.
  - intros k e. rewrite lookup_difference_Some_not. split.
    + intros [He Hnot]. split; [done|]. intros Hpk. apply Hnot. exists e.
      apply collect_timelines_lookup. split; [done|].
      rewrite Hpk, lookup_singleton_eq. eauto.
    + intros [He Hne]. split; [done|]. intros [e' He'].
      apply collect_timelines_lookup in He' as [He' [a' Ha']].
      apply lookup_singleton_Some in Ha' as [Ha' _]. congruence.
Qed.

Lemma destroy_application_cascade_witness :
  job_applications acme_db !! 1 = Some backend_engineer
  ∧ ∃ db', JobApplicationViewSet.destroy 1 acme_db = (Ok tt, db')
      ∧ job_sites db' = job_sites acme_db
      ∧ application_timelines db' !! 1 = None.
Proof.
  split; [reflexivity|].
  destruct (destroy_application_cascade acme_db 1 backend_engineer)
    as (db' & Hrun & Hsites & _ & Hevents); [reflexivity|].
  exists db'. split; [exact Hrun|]. split; [exact Hsites|].
  apply eq_None_not_Some. intros [e He].
  apply Hevents in He as [He Hne]. vm_compute in He.
  injection He as <-. apply Hne. reflexivity.
Defined.

(** ** Archiving and unarchiving compose *)

Lemma set_is_archived_twice b1 b2 a :
  JobApplication.set_is_archived b2 (JobApplication.set_is_archived b1 a)
  = JobApplication.set_is_archived b2 a.
Proof. reflexivity. Qed.

Lemma set_is_archived_same a :
  JobApplication.set_is_archived (JobApplication.is_archived a) a = a.
Proof. by destruct a. Qed.

Lemma with_job_applications_id db :
  with_job_applications (job_applications db) db = db.
Proof. by destruct db. Qed.

(** X4. Unlike a site, an application carries no [auto_now] field, so
    [archive] is idempotent to the letter: a second [archive] of the same
    application succeeds with the same acknowledgement and leaves the
    database exactly as the first one left it.  The same holds for
    [unarchive]. *)
Theorem archive_twice (db : DB) (pk : Z) (a : JobApplication.t) :
  job_applications db !! pk = Some a →
  (let once := (JobApplicationViewSet.archive pk db).2 in
   JobApplicationViewSet.archive pk once = (Ok [("status", "archived")], once))
  ∧ (let once := (JobApplicationViewSet.unarchive pk db).2 in
     JobApplicationViewSet.unarchive pk once
     = (Ok [("status", "unarchived")], once)).
Proof.
  intros Ha. split; cbn zeta.
  - rewrite (archive_found db pk a Ha). cbn [snd].
    erewrite archive_found by (cbn; apply lookup_insert_eq).
    f_equal. unfold with_job_applications. cbn.
    by rewrite insert_insert_eq.
  - rewrite (unarchive_found db pk a Ha). cbn [snd].
    erewrite unarchive_found by (cbn; apply lookup_insert_eq).
    f_equal. unfold with_job_applications. cbn.
    by rewrite insert_insert_eq.
Qed.

Lemma archive_twice_witness :
  job_applications acme_db !! 1 = Some backend_engineer
  ∧ JobApplicationViewSet.archive 1 (JobApplicationViewSet.archive 1 acme_db).2
    = (Ok [("status", "archived")], (JobApplicationViewSet.archive 1 acme_db).2).
Proof.
  split; [reflexivity|].
  exact (proj1 (archive_twice acme_db 1 backend_engineer eq_refl)).
Defined.

(** X5. [archive] followed by [unarchive] gives back the database one
    started from when the application was not archived, and [unarchive]
    followed by [archive] does so when it was: the two transitions touch
    nothing but [is_archived]. *)
Theorem archive_unarchive_round_trip (db : DB) (pk : Z) (a : JobApplication.t) :
  job_applications db !! pk = Some a →
  (JobApplication.is_archived a = false →
     (JobApplicationViewSet.unarchive pk
        (JobApplicationViewSet.archive pk db).2).2 = db)
  ∧ (JobApplication.is_archived a = true →
     (JobApplicationViewSet.archive pk
        (JobApplicationViewSet.unarchive pk db).2).2 = db).
Proof.
  intros Ha. split; intros Hflag.
  - rewrite (archive_found db pk a Ha). cbn [snd].
    erewrite unarchive_found by (cbn; apply lookup_insert_eq). cbn [snd].
    unfold with_job_applications at 1. cbn.
    rewrite insert_insert_eq, set_is_archived_twice, <-Hflag, set_is_archived_same.
    rewrite insert_id by done. by destruct db.
  - rewrite (unarchive_found db pk a Ha). cbn [snd].
    erewrite archive_found by (cbn; apply lookup_insert_eq). cbn [snd].
    unfold with_job_applications at 1. cbn.
    rewrite insert_insert_eq, set_is_archived_twice, <-Hflag, set_is_archived_same.
    rewrite insert_id by done. by destruct db.
Qed.

Lemma archive_unarchive_round_trip_witness :
  job_applications acme_db !! 1 = Some backend_engineer
  ∧ JobApplication.is_archived backend_engineer = false
  ∧ (JobApplicationViewSet.unarchive 1
       (JobApplicationViewSet.archive 1 acme_db).2).2 = acme_db.
Proof.
  split; [reflexivity|]. split; [reflexivity|].
  exact (proj1 (archive_unarchive_round_trip acme_db 1 backend_engineer eq_refl)
           eq_refl).
Defined.

(** ** The two site marks *)

(** X6. The two marks of a site are independent: marking an existing
    site visited at [t1] and completed at [t2], or completed at [t1] and
    visited at [t2], ends in the same database, with both flags set and
    [updated_at = t2]. *)
Theorem marks_in_either_order (db : DB) (t1 t2 : datetime) (pk : Z)
    (site : JobSite.t) :
  job_sites db !! pk = Some site →
  let visited_first :=
    (JobSiteViewSet.mark_completed t2 pk
       (JobSiteViewSet.mark_visited t1 pk db).2).2 in
  let completed_first :=
    (JobSiteViewSet.mark_visited t2 pk
       (JobSiteViewSet.mark_completed t1 pk db).2).2 in
  visited_first = completed_first
  ∧ job_sites visited_first !! pk
    = Some (JobSite.mk (JobSite.name site) (JobSite.url site)
              (JobSite.site_type site) (JobSite.country site)
              (JobSite.language site) (JobSite.work_area site)
              (JobSite.description site) true true
              (JobSite.created_at site) t2).
Proof.
  intros Hsite. cbn zeta.
  rewrite (mark_visited_found db t1 pk site Hsite).
  rewrite (mark_completed_found db t1 pk site Hsite). cbn [snd].
  erewrite mark_completed_found by (cbn; apply lookup_insert_eq).
  erewrite mark_visited_found by (cbn; apply lookup_insert_eq). cbn [snd].
  unfold with_job_sites. cbn. rewrite !insert_insert_eq.
  split; [reflexivity|]. by rewrite lookup_insert_eq.
Qed.

Lemma marks_in_either_order_witness :
  job_sites acme_db !! 1 = Some acme_boards
  ∧ (JobSiteViewSet.mark_completed 600 1
       (JobSiteViewSet.mark_visited 500 1 acme_db).2).2
    = (JobSiteViewSet.mark_visited 600 1
         (JobSiteViewSet.mark_completed 500 1 acme_db).2).2.
Proof.
  split; [reflexivity|].
  exact (proj1 (marks_in_either_order acme_db 500 600 1 acme_boards eq_refl)).
Defined.

(** ** Dashboard counts *)

Lemma dashboard_stats_value db :
  JobSiteViewSet.dashboard_stats db
  = (Ok (JobSiteViewSet.mk
           (Z.of_nat (size (job_sites db)))
           (Z.of_nat (size (filter (λ r, JobSite.visited r.2 = true) (job_sites db))))
           (Z.of_nat (size (filter (λ r, JobSite.is_completed r.2 = true)
                                   (job_sites db))))
           (Z.of_nat (size (job_sites db))
            - Z.of_nat (size (filter (λ r, JobSite.visited r.2 = true)
                                     (job_sites db))))),
     db).
Proof.
  unfold JobSiteViewSet.dashboard_stats, mbind, View_bind, query, mret, View_ret.
  by rewrite count_objects_all, !count_filter_objects_all.
Qed.

(** X7. The four dashboard counts are consistent with one another: the
    visited, completed and pending counts all lie between 0 and
    [total_sites]. *)
Theorem dashboard_stats_bounds (db : DB) :
  ∃ r, JobSiteViewSet.dashboard_stats db = (Ok r, db)
    ∧ 0 ≤ JobSiteViewSet.visited_sites r ≤ JobSiteViewSet.total_sites r
    ∧ 0 ≤ JobSiteViewSet.completed_sites r ≤ JobSiteViewSet.total_sites r
    ∧ 0 ≤ JobSiteViewSet.pending_sites r ≤ JobSiteViewSet.total_sites r.
Proof.
  eexists. split; [apply dashboard_stats_value|]. cbn.
  pose proof (map_size_filter (λ r : Z * JobSite.t, JobSite.visited r.2 = true)
                (job_sites db)).
  pose proof (map_size_filter (λ r : Z * JobSite.t, JobSite.is_completed r.2 = true)
                (job_sites db)).
  lia.
Qed.

Lemma size_filter_insert {A} (P : Z * A → Prop) `{!∀ r, Decision (P r)}
    (m : gmap Z A) (k : Z) (old new : A) :
  m !! k = Some old →
  Z.of_nat (size (filter P (<[k := new]> m)))
  = Z.of_nat (size (filter P m))
    + (if decide (P (k, new)) then 1 else 0)
    - (if decide (P (k, old)) then 1 else 0).
Proof.
  intros Hk. rewrite map_filter_insert, map_filter_delete.
  destruct (decide (P (k, new))) as [Hnew|Hnew];
    destruct (decide (P (k, old))) as [Hold|Hold].
  - rewrite map_size_insert_Some; [lia|]. exists old.
    by apply map_lookup_filter_Some.
  - rewrite map_size_insert_None; [lia|].
    apply map_lookup_filter_None. right. intros x Hx. congruence.
  - assert (filter P m !! k = Some old) as Hf by by apply map_lookup_filter_Some.
    rewrite map_size_delete, Hf. cbn.
    assert (size (filter P m) ≠ 0%nat) by by eapply map_size_ne_0_lookup_2.
    lia.
  - rewrite map_size_delete_None; [lia|].
    apply map_lookup_filter_None. right. intros x Hx. congruence.
Qed.

(** X8. Marking an existing site visited moves the dashboard as one
    expects: [total_sites] and [completed_sites] stay, and a site that was
    not yet visited moves from pending to visited (one more visited, one
    less pending), while marking a visited site again leaves all four
    counts as they were. *)
Theorem dashboard_after_mark_visited (db : DB) (now : datetime) (pk : Z)
    (site : JobSite.t) :
  job_sites db !! pk = Some site →
  ∃ before after,
    JobSiteViewSet.dashboard_stats db = (Ok before, db)
    ∧ (JobSiteViewSet.dashboard_stats
         (JobSiteViewSet.mark_visited now pk db).2).1 = Ok after
    ∧ JobSiteViewSet.total_sites after = JobSiteViewSet.total_sites before
    ∧ JobSiteViewSet.completed_sites after = JobSiteViewSet.completed_sites before
    ∧ JobSiteViewSet.visited_sites after
      = JobSiteViewSet.visited_sites before
        + (if JobSite.visited site then 0 else 1)
    ∧ JobSiteViewSet.pending_sites after
      = JobSiteViewSet.pending_sites before
        - (if JobSite.visited site then 0 else 1).
Proof.
  intros Hsite. eexists _, _. split; [apply dashboard_stats_value|].
  rewrite (mark_visited_found db now pk site Hsite). cbn [snd].
  rewrite dashboard_stats_value. split; [reflexivity|]. cbn.
  rewrite (map_size_insert_Some pk _ (job_sites db)) by eauto.
  rewrite !(size_filter_insert _ _ pk site) by done. cbn.
  rewrite (decide_True (P := true = true)) by done.
  destruct (JobSite.visited site), (JobSite.is_completed site);
    repeat case_decide; try done; lia.
Qed.

Lemma dashboard_after_mark_visited_witness :
  job_sites acme_db !! 1 = Some acme_boards
  ∧ ∃ before after,
      JobSiteViewSet.dashboard_stats acme_db = (Ok before, acme_db)
      ∧ (JobSiteViewSet.dashboard_stats
           (JobSiteViewSet.mark_visited 500 1 acme_db).2).1 = Ok after
      ∧ JobSiteViewSet.visited_sites after = JobSiteViewSet.visited_sites before + 1
      ∧ JobSiteViewSet.pending_sites after = JobSiteViewSet.pending_sites before - 1.
Proof.
  split; [reflexivity|].
  destruct (dashboard_after_mark_visited acme_db 500 1 acme_boards)
    as (before & after & Hb & Ha & _ & _ & Hv & Hp); [reflexivity|].
  exists before, after. split; [exact Hb|]. split; [exact Ha|].
  split; [exact Hv|exact Hp].
Defined.

(** ** Application statistics and the active listing *)

Lemma stats_value db :
  JobApplicationViewSet.stats db
  = (Ok (JobApplicationViewSet.mk
           (count (objects_all (job_applications db)))
           (values_annotate_count
              ((λ r, JobApplication.status r.2)
                 <$> objects_all (job_applications db)))
           (count (filter (λ r, JobApplication.is_archived r.2 = true)
                          (objects_all (job_applications db))))),
     db).
Proof. reflexivity. Qed.

Lemma timeline_value db :
  JobApplicationViewSet.timeline db
  = (Ok (JobApplicationSerializer.to_representation db
           <$> order_by_desc (λ r, JobApplication.applied_date r.2)
                 (filter (λ r, JobApplication.is_archived r.2 = false)
                         (objects_all (job_applications db)))),
     db).
Proof. reflexivity. Qed.

Lemma timeline_ids db l k :
  (JobApplicationViewSet.timeline db).1 = Ok l →
  k ∈ JobApplicationSerializer.id <$> l
  ↔ ∃ a, job_applications db !! k = Some a ∧ JobApplication.is_archived a = false.
Proof.
  rewrite timeline_value. cbn [fst]. intros [= <-].
  rewrite <-list_fmap_compose, list_elem_of_fmap. split.
  - intros ([k' a] & -> & Hin). cbn.
    rewrite order_by_desc_elem, list_elem_of_filter, objects_all_lookup in Hin.
    exists a. tauto.
  - intros (a & Ha & Harch). exists (k, a). split; [done|].
    rewrite order_by_desc_elem, list_elem_of_filter, objects_all_lookup. done.
Qed.

(** X9. The statistics and the active listing agree: the number of
    applications in the [timeline] listing plus the [archived] count of
    [stats] is [total_applications]. *)
Theorem active_plus_archived (db : DB) :
  ∃ r l, JobApplicationViewSet.stats db = (Ok r, db)
    ∧ JobApplicationViewSet.timeline db = (Ok l, db)
    ∧ Z.of_nat (length l) + JobApplicationViewSet.archived r
      = JobApplicationViewSet.total_applications r.
Proof.
  eexists _, _. split; [apply stats_value|]. split; [apply timeline_value|].
  cbn. rewrite length_fmap, order_by_desc_perm.
  rewrite <-(count_filter_complement
               (λ r, JobApplication.is_archived r.2 = true)
               (objects_all (job_applications db))).
  rewrite (list_filter_iff (λ r : Z * JobApplication.t,
                              JobApplication.is_archived r.2 = false)
             (λ r, ¬ JobApplication.is_archived r.2 = true))
    by (intros r; apply is_archived_false_iff).
  unfold count. lia.
Qed.

(** X10. [archive] takes an application out of the active listing and
    [unarchive] puts it in, and neither moves any other application in or
    out of it. *)
Theorem archive_and_the_listing (db : DB) (pk : Z) (a : JobApplication.t)
    (l la lu : list JobApplicationSerializer.representation) :
  job_applications db !! pk = Some a →
  (JobApplicationViewSet.timeline db).1 = Ok l →
  (JobApplicationViewSet.timeline (JobApplicationViewSet.archive pk db).2).1
  = Ok la →
  (JobApplicationViewSet.timeline (JobApplicationViewSet.unarchive pk db).2).1
  = Ok lu →
  (pk ∉ (JobApplicationSerializer.id <$> la))
  ∧ pk ∈ (JobApplicationSerializer.id <$> lu)
  ∧ ∀ k, k ≠ pk →
      (k ∈ JobApplicationSerializer.id <$> la ↔ k ∈ JobApplicationSerializer.id <$> l)
      ∧ (k ∈ JobApplicationSerializer.id <$> lu
         ↔ k ∈ JobApplicationSerializer.id <$> l).
Proof.
  intros Ha Hl Hla Hlu.
  rewrite (archive_found db pk a Ha) in Hla.
  rewrite (unarchive_found db pk a Ha) in Hlu. cbn [snd] in Hla, Hlu.
  split_and!.
  - rewrite (timeline_ids _ _ pk Hla). cbn. rewrite lookup_insert_eq.
    intros (a' & [= <-] & Harch). discriminate Harch.
  - rewrite (timeline_ids _ _ pk Hlu). cbn. rewrite lookup_insert_eq. eauto.
  - intros k Hk.
    rewrite (timeline_ids _ _ k Hla), (timeline_ids _ _ k Hlu),
      (timeline_ids _ _ k Hl).
    cbn. by rewrite !lookup_insert_ne.
Qed.

Lemma archive_and_the_listing_witness :
  job_applications acme_db !! 1 = Some backend_engineer
  ∧ ∃ l la lu,
      (JobApplicationViewSet.timeline acme_db).1 = Ok l
      ∧ (JobApplicationViewSet.timeline
           (JobApplicationViewSet.archive 1 acme_db).2).1 = Ok la
      ∧ (JobApplicationViewSet.timeline
           (JobApplicationViewSet.unarchive 1 acme_db).2).1 = Ok lu
      ∧ (1 ∉ (JobApplicationSerializer.id <$> la))
      ∧ 1 ∈ (JobApplicationSerializer.id <$> lu).
Proof.
  split; [reflexivity|]. eexists _, _, _.
  split; [reflexivity|]. split; [reflexivity|]. split; [reflexivity|].
  pose proof (archive_and_the_listing acme_db 1 backend_engineer _ _ _
                eq_refl eq_refl eq_refl eq_refl) as (Hout & Hin & _).
  split; [exact Hout|exact Hin].
Defined.

Lemma by_status_elem db r status n :
  (JobApplicationViewSet.stats db).1 = Ok r →
  (status, n) ∈ JobApplicationViewSet.by_status r
  ↔ (∃ k a, job_applications db !! k = Some a ∧ JobApplication.status a = status)
    ∧ n = Z.of_nat (size (filter (λ r, JobApplication.status r.2 = status)
                                 (job_applications db))).
Proof.
  rewrite stats_value. cbn [fst]. intros [= <-].
  cbn [JobApplicationViewSet.by_status].
  set (col := (λ r, JobApplication.status r.2) <$> objects_all (job_applications db)).
  rewrite values_annotate_count_elem.
  assert (count (filter (λ x, x = status) col)
          = Z.of_nat (size (filter (λ r, JobApplication.status r.2 = status)
                                   (job_applications db)))) as ->.
  { rewrite <-count_filter_objects_all. unfold count, col.
    by rewrite length_filter_fmap. }
  assert (status ∈ col
          ↔ ∃ k a, job_applications db !! k = Some a
                   ∧ JobApplication.status a = status) as ->; [|done].
  unfold col. rewrite list_elem_of_fmap. split.
  - intros ([k a] & -> & Hin). apply objects_all_lookup in Hin. eauto.
  - intros (k & a & Ha & <-). exists (k, a). by rewrite objects_all_lookup.
Qed.

(** X11. [status] and [is_archived] are independent columns: archiving
    or unarchiving an application changes neither [total_applications] nor
    any entry of [by_status]; only [archived] moves, by one when the flag
    really flips. *)
Theorem archive_and_the_stats (db : DB) (pk : Z) (a : JobApplication.t) (b : bool) :
  job_applications db !! pk = Some a →
  let db' := if b then (JobApplicationViewSet.archive pk db).2
             else (JobApplicationViewSet.unarchive pk db).2 in
  ∃ r r', JobApplicationViewSet.stats db = (Ok r, db)
    ∧ JobApplicationViewSet.stats db' = (Ok r', db')
    ∧ JobApplicationViewSet.total_applications r'
      = JobApplicationViewSet.total_applications r
    ∧ (∀ entry, entry ∈ JobApplicationViewSet.by_status r'
                ↔ entry ∈ JobApplicationViewSet.by_status r)
    ∧ JobApplicationViewSet.archived r'
      = JobApplicationViewSet.archived r
        + (if b then 1 else 0)
        - (if JobApplication.is_archived a then 1 else 0).
Proof.
  intros Ha db'.
  assert (db' = with_job_applications
                  (<[pk := JobApplication.set_is_archived b a]>
                     (job_applications db)) db) as ->.
  { unfold db'. destruct b;
      [rewrite (archive_found db pk a Ha) | rewrite (unarchive_found db pk a Ha)];
      done. }
  eexists _, _. split; [apply stats_value|]. split; [apply stats_value|].
  split_and!.
  - cbn. rewrite !count_objects_all. by rewrite map_size_insert_Some by eauto.
  - intros [status n].
    rewrite (by_status_elem _ _ status n (f_equal fst (stats_value _))).
    rewrite (by_status_elem db _ status n (f_equal fst (stats_value _))).
    cbn. rewrite (size_filter_insert _ _ pk a) by done. cbn.
    assert ((∃ k a0, <[pk := JobApplication.set_is_archived b a]>
                       (job_applications db) !! k = Some a0
                     ∧ JobApplication.status a0 = status)
            ↔ ∃ k a0, job_applications db !! k = Some a0
                      ∧ JobApplication.status a0 = status) as ->.
    { split; intros (k & a0 & Hk & Hs).
      - destruct (decide (k = pk)) as [->|Hne].
        + rewrite lookup_insert_eq in Hk. injection Hk as <-. eauto.
        + rewrite lookup_insert_ne in Hk by done. eauto.
      - destruct (decide (k = pk)) as [->|Hne].
        + exists pk, (JobApplication.set_is_archived b a).
          rewrite lookup_insert_eq. split; [done|]. cbn. congruence.
        + exists k, a0. by rewrite lookup_insert_ne. }
    destruct (decide (JobApplication.status a = status)); split;
      intros [? ->]; split; try done; lia.
  - cbn. rewrite !count_filter_objects_all.
    rewrite (size_filter_insert _ _ pk a) by done. cbn.
    destruct b, (JobApplication.is_archived a); repeat case_decide; try done; lia.
Qed.

Lemma archive_and_the_stats_witness :
  job_applications acme_db !! 1 = Some backend_engineer
  ∧ ∃ r r', JobApplicationViewSet.stats acme_db = (Ok r, acme_db)
      ∧ (JobApplicationViewSet.stats
           (JobApplicationViewSet.archive 1 acme_db).2).1 = Ok r'
      ∧ JobApplicationViewSet.archived r' = JobApplicationViewSet.archived r + 1.
Proof.
  split; [reflexivity|].
  destruct (archive_and_the_stats acme_db 1 backend_engineer true)
    as (r & r' & Hr & Hr' & _ & _ & Harch); [reflexivity|].
  exists r, r'. split; [exact Hr|]. split; [by rewrite Hr'|].
  rewrite Harch. cbn. lia.
Defined.

(** ** Request bodies the serializers turn down *)

Section rejections.
Context `{!RestFramework}.
Implicit Types (db : DB) (partial required : bool).

Lemma run_field_absent {A B} (f : A → option B) :
  run_field false true f None = Failed.
Proof. reflexivity. Qed.

Lemma run_field_invalid_choice partial required choices (data : string) :
  data ∉ choices.*1 →
  run_field partial required (ChoiceField choices) (Some data) = Failed.
Proof.
  intros Hnot. unfold run_field, ChoiceField. by rewrite decide_False.
Qed.

Lemma errors_raise {A} (errs : list string) (v : A) (name : string) :
  name ∈ errs →
  ∃ errors,
    match errs with [] => inr v | e :: l => inl (e :: l) end
    = inl (B := A) errors
    ∧ name ∈ errors.
Proof.
  intros Hin. destruct errs as [|e errs]; [by apply elem_of_nil in Hin|eauto].
Qed.

Lemma is_valid_rejects {A B} (run_validation : DB → list string + A)
    (k : A → View B) db name :
  (∃ errors, run_validation db = inl errors ∧ name ∈ errors) →
  rejects (is_valid run_validation ≫= k) name db.
Proof.
  intros (errors & Hrun & Hin). exists errors. split; [|done].
  unfold mbind, View_bind, is_valid. by rewrite Hrun.
Qed.
End rejections.

Ltac turn_down :=
  apply is_valid_rejects; cbv beta;
  first [ progress unfold JobSiteSerializer.run_validation
        | progress unfold JobApplicationSerializer.run_validation
        | progress unfold ApplicationTimelineSerializer.run_validation ];
  cbv zeta;
  repeat match goal with
    | H : _ = None |- _ => rewrite H, run_field_absent; clear H
    | H : _ = Some _, Hnot : _ ∉ _ |- _ =>
        rewrite H, (run_field_invalid_choice _ _ _ _ Hnot); clear H
    | H : _ = Some ?pk, Hnone : _ !! ?pk = None |- _ =>
        rewrite H, (run_field_unknown_pk _ _ _ _ Hnone); clear H
    end;
  apply errors_raise; cbn [concat error]; set_solver.

(** X12. Creating a site is turned down, with the database untouched,
    when the body lacks one of the six required keys or carries a value
    outside the [choices] of [site_type], [country], [language] or
    [work_area]; the [ValidationError] names the offending field. *)
Theorem create_site_validation `{!RestFramework}
    (now : datetime) (data : JobSiteData.t) (db : DB) :
  (JobSiteData.name data = None → rejects (JobSiteViewSet.create now data) "name" db)
  ∧ (JobSiteData.url data = None → rejects (JobSiteViewSet.create now data) "url" db)
  ∧ (JobSiteData.site_type data = None →
     rejects (JobSiteViewSet.create now data) "site_type" db)
  ∧ (JobSiteData.country data = None →
     rejects (JobSiteViewSet.create now data) "country" db)
  ∧ (JobSiteData.language data = None →
     rejects (JobSiteViewSet.create now data) "language" db)
  ∧ (JobSiteData.work_area data = None →
     rejects (JobSiteViewSet.create now data) "work_area" db)
  ∧ (∀ v, JobSiteData.site_type data = Some v → v ∉ JobSite.SITE_TYPES.*1 →
     rejects (JobSiteViewSet.create now data) "site_type" db)
  ∧ (∀ v, JobSiteData.country data = Some v → v ∉ JobSite.COUNTRIES.*1 →
     rejects (JobSiteViewSet.create now data) "country" db)
  ∧ (∀ v, JobSiteData.language data = Some v → v ∉ JobSite.LANGUAGES.*1 →
     rejects (JobSiteViewSet.create now data) "language" db)
  ∧ (∀ v, JobSiteData.work_area data = Some v → v ∉ JobSite.WORK_AREAS.*1 →
     rejects (JobSiteViewSet.create now data) "work_area" db).
Proof.
  split_and!; intros; unfold JobSiteViewSet.create; turn_down.
Qed.

Lemma create_site_validation_witness :
  JobSiteData.name JobSiteData.empty = None
  ∧ rejects (JobSiteViewSet.create (H := plain_text_fields) 500 JobSiteData.empty)
            "name" acme_db.
Proof.
  split; [reflexivity|].
  apply (create_site_validation (H := plain_text_fields) 500 JobSiteData.empty
           acme_db).
  reflexivity.
Defined.

(** X13. Creating an application is turned down, with the database
    untouched, when the body lacks [job_site], [position] or [company], or
    carries a [status] outside STATUS_CHOICES; the [ValidationError] names
    the offending field. *)
Theorem create_application_validation `{!RestFramework}
    (now : datetime) (data : JobApplicationData.t) (db : DB) :
  (JobApplicationData.job_site data = None →
   rejects (JobApplicationViewSet.create now data) "job_site" db)
  ∧ (JobApplicationData.position data = None →
     rejects (JobApplicationViewSet.create now data) "position" db)
  ∧ (JobApplicationData.company data = None →
     rejects (JobApplicationViewSet.create now data) "company" db)
  ∧ (∀ v, JobApplicationData.status data = Some v →
          v ∉ JobApplication.STATUS_CHOICES.*1 →
     rejects (JobApplicationViewSet.create now data) "status" db).
Proof.
  split_and!; intros; unfold JobApplicationViewSet.create; turn_down.
Qed.

Lemma create_application_validation_witness :
  JobApplicationData.position JobApplicationData.empty = None
  ∧ rejects (JobApplicationViewSet.create (H := plain_text_fields) 500
               JobApplicationData.empty)
            "position" acme_db.
Proof.
  split; [reflexivity|].
  apply (create_application_validation (H := plain_text_fields) 500
           JobApplicationData.empty acme_db).
  reflexivity.
Defined.

(** X14. Creating a timeline event is turned down, with the database
    untouched, when the body lacks [application], [event_type] or [title],
    carries an [event_type] outside EVENT_TYPES, or names an [application]
    that does not exist; the [ValidationError] names the offending
    field. *)
Theorem create_timeline_validation `{!RestFramework}
    (now : datetime) (data : ApplicationTimelineData.t) (db : DB) :
  (ApplicationTimelineData.application data = None →
   rejects (ApplicationTimelineViewSet.create now data) "application" db)
  ∧ (ApplicationTimelineData.event_type data = None →
     rejects (ApplicationTimelineViewSet.create now data) "event_type" db)
  ∧ (ApplicationTimelineData.title data = None →
     rejects (ApplicationTimelineViewSet.create now data) "title" db)
  ∧ (∀ v, ApplicationTimelineData.event_type data = Some v →
          v ∉ ApplicationTimeline.EVENT_TYPES.*1 →
     rejects (ApplicationTimelineViewSet.create now data) "event_type" db)
  ∧ (∀ pk, ApplicationTimelineData.application data = Some pk →
           job_applications db !! pk = None →
     rejects (ApplicationTimelineViewSet.create now data) "application" db).
Proof.
  split_and!; intros; unfold ApplicationTimelineViewSet.create; turn_down.
Qed.

Lemma create_timeline_validation_witness :
  ApplicationTimelineData.application
    (ApplicationTimelineData.mk (Some 7) (Some "applied") (Some "Sent") None)
  = Some 7
  ∧ job_applications acme_db !! 7 = None
  ∧ rejects (ApplicationTimelineViewSet.create (H := plain_text_fields) 500
               (ApplicationTimelineData.mk (Some 7) (Some "applied") (Some "Sent")
                                           None))
            "application" acme_db.
Proof.
  split; [reflexivity|]. split; [reflexivity|].
  destruct (create_timeline_validation (H := plain_text_fields) 500
              (ApplicationTimelineData.mk (Some 7) (Some "applied") (Some "Sent")
                                          None) acme_db)
    as (_ & _ & _ & _ & Hunknown).
  apply (Hunknown 7); reflexivity.
Defined.

(** ** Requests addressed to a row that is not there *)

(** X15. update, partial_update and destroy look the row up before they
    read the body: addressed to an id that matches no row, each of them
    raises [Http404], whatever the body holds, and leaves the database as
    it was. *)
Theorem missing_row_is_404 `{!RestFramework}
    (partial : bool) (now : datetime) (pk : Z) (db : DB) :
  (job_sites db !! pk = None →
     (∀ data, JobSiteViewSet.update partial now pk data db = (Raise Http404, db))
     ∧ JobSiteViewSet.destroy pk db = (Raise Http404, db))
  ∧ (job_applications db !! pk = None →
     (∀ data, JobApplicationViewSet.update partial pk data db
              = (Raise Http404, db))
     ∧ JobApplicationViewSet.destroy pk db = (Raise Http404, db))
  ∧ (application_timelines db !! pk = None →
     (∀ data, ApplicationTimelineViewSet.update partial pk data db
              = (Raise Http404, db))
     ∧ ApplicationTimelineViewSet.destroy pk db = (Raise Http404, db)).
Proof.
  split_and!; intros Hnone; split; try intros data.
  - by apply (get_object_missing job_sites).
  - by apply (get_object_missing job_sites).
  - by apply (get_object_missing job_applications).
  - by apply (get_object_missing job_applications).
  - by apply (get_object_missing application_timelines).
  - by apply (get_object_missing application_timelines).
Qed.

Lemma missing_row_is_404_witness :
  job_applications acme_db !! 7 = None
  ∧ JobApplicationViewSet.update (H := plain_text_fields) false 7
      JobApplicationData.empty acme_db
    = (Raise Http404, acme_db).
Proof.
  split; [reflexivity|].
  destruct (missing_row_is_404 (H := plain_text_fields) false 500 7 acme_db)
    as (_ & Happ & _).
  apply Happ. reflexivity.
Defined.

(** ** Partial updates *)

Lemma with_job_sites_id db : with_job_sites (job_sites db) db = db.
Proof. by destruct db. Qed.

Lemma with_application_timelines_id db :
  with_application_timelines (application_timelines db) db = db.
Proof. by destruct db. Qed.

Section empty_body.
Context `{!RestFramework}.

Lemma JobSite_validate_empty :
  JobSiteSerializer.run_validation true JobSiteData.empty = inr JobSiteData.empty.
Proof. reflexivity. Qed.

Lemma JobApplication_validate_empty db :
  JobApplicationSerializer.run_validation true JobApplicationData.empty db
  = inr JobApplicationData.empty.
Proof. reflexivity. Qed.

Lemma ApplicationTimeline_validate_empty db :
  ApplicationTimelineSerializer.run_validation true ApplicationTimelineData.empty db
  = inr ApplicationTimelineData.empty.
Proof. reflexivity. Qed.

Lemma JobSite_set_attrs_empty site :
  JobSiteSerializer.set_attrs site JobSiteData.empty = site.
Proof. by destruct site. Qed.

Lemma JobApplication_set_attrs_empty a :
  JobApplicationSerializer.set_attrs a JobApplicationData.empty = a.
Proof. by destruct a. Qed.

Lemma ApplicationTimeline_set_attrs_empty e :
  ApplicationTimelineSerializer.set_attrs e ApplicationTimelineData.empty = e.
Proof. by destruct e. Qed.
End empty_body.

(** X16. A PATCH with an empty body validates and changes no field: on
    an application or a timeline event it answers with the representation
    of the row and leaves the database exactly as it was; on a site it
    succeeds too and still saves, so the one thing that changes is
    [updated_at], and the response shows the row so saved. *)
Theorem patch_empty_body `{!RestFramework} (now : datetime) (pk : Z) (db : DB) :
  (∀ a, job_applications db !! pk = Some a →
     JobApplicationViewSet.partial_update pk JobApplicationData.empty db
     = (Ok (JobApplicationSerializer.to_representation db (pk, a)), db))
  ∧ (∀ e, application_timelines db !! pk = Some e →
     ApplicationTimelineViewSet.partial_update pk ApplicationTimelineData.empty db
     = (Ok (ApplicationTimelineSerializer.to_representation (pk, e)), db))
  ∧ (∀ site, job_sites db !! pk = Some site →
     let db' := with_job_sites
                  (<[pk := JobSite.set_updated_at now site]> (job_sites db)) db in
     JobSiteViewSet.partial_update now pk JobSiteData.empty db
     = (Ok (JobSiteSerializer.to_representation db'
              (pk, JobSite.set_updated_at now site)), db')).
Proof.
  split_and!.
  - intros a Ha.
    unfold JobApplicationViewSet.partial_update, JobApplicationViewSet.update,
      mbind, View_bind, get_object, is_valid, JobApplication_save, query.
    rewrite Ha, JobApplication_validate_empty, JobApplication_set_attrs_empty.
    rewrite insert_id by done. by rewrite with_job_applications_id.
  - intros e He.
    unfold ApplicationTimelineViewSet.partial_update,
      ApplicationTimelineViewSet.update,
      mbind, View_bind, get_object, is_valid, ApplicationTimeline_save, mret,
      View_ret.
    rewrite He, ApplicationTimeline_validate_empty,
      ApplicationTimeline_set_attrs_empty.
    rewrite insert_id by done. by rewrite with_application_timelines_id.
  - intros site Hsite. cbn zeta.
    unfold JobSiteViewSet.partial_update, JobSiteViewSet.update,
      mbind, View_bind, get_object, is_valid, JobSite_save, query.
    by rewrite Hsite, JobSite_validate_empty, JobSite_set_attrs_empty.
Qed.

Lemma patch_empty_body_witness :
  job_applications acme_db !! 1 = Some backend_engineer
  ∧ (JobApplicationViewSet.partial_update (H := plain_text_fields) 1
       JobApplicationData.empty acme_db).2 = acme_db.
Proof.
  split; [reflexivity|].
  destruct (patch_empty_body (H := plain_text_fields) 500 1 acme_db) as (Happ & _).
  by rewrite (Happ backend_engineer eq_refl).
Defined.

(** ** Choice fields stay within their choices *)

Ltac serve_cases :=
  unfold serve; cbn [fst snd];
  unfold dispatch, discard,
    JobSiteViewSet.create, JobSiteViewSet.partial_update, JobSiteViewSet.update,
    JobSiteViewSet.destroy, JobSiteViewSet.mark_visited,
    JobSiteViewSet.mark_completed,
    JobApplicationViewSet.create, JobApplicationViewSet.partial_update,
    JobApplicationViewSet.update, JobApplicationViewSet.destroy,
    JobApplicationViewSet.archive, JobApplicationViewSet.unarchive,
    ApplicationTimelineViewSet.create, ApplicationTimelineViewSet.partial_update,
    ApplicationTimelineViewSet.update, ApplicationTimelineViewSet.destroy,
    mbind, View_bind, get_object, is_valid, query, mret, View_ret;
  repeat case_match; simplify_eq/=;
  try match goal with
    | H : _ ?db = (_, ?db') |- _ =>
        apply (f_equal snd) in H; cbn [snd] in H; rewrite <-H
    end.

Section choices.
Context `{!RestFramework}.
Implicit Types (db : DB) (pk : Z) (partial : bool).

Lemma run_field_choice_validated partial required choices data (v : string) :
  validated (run_field partial required (ChoiceField choices) data) = Some v →
  v ∈ choices.*1.
Proof.
  unfold run_field, ChoiceField. destruct data as [raw|].
  - case_decide; cbn; [by intros [= <-]|done].
  - by destruct partial, required.
Qed.

Lemma default_choice partial required choices data (old : string) name :
  (partial = false ∧ required = true
   ∧ error name (run_field partial required (ChoiceField choices) data) = [])
  ∨ old ∈ choices.*1 →
  default old (validated (run_field partial required (ChoiceField choices) data))
  ∈ choices.*1.
Proof.
  intros Hcase.
  destruct (validated (run_field partial required (ChoiceField choices) data))
    as [v|] eqn:Hv; cbn.
  - by eapply run_field_choice_validated.
  - destruct Hcase as [(-> & -> & Herr)|Hold]; [|done].
    apply run_field_required in Herr as [v' Hv']. congruence.
Qed.

Lemma JobSite_set_attrs_choices partial data v instance :
  JobSiteSerializer.run_validation partial data = inr v →
  partial = false
  ∨ (JobSite.site_type instance ∈ JobSite.SITE_TYPES.*1
     ∧ JobSite.country instance ∈ JobSite.COUNTRIES.*1
     ∧ JobSite.language instance ∈ JobSite.LANGUAGES.*1
     ∧ JobSite.work_area instance ∈ JobSite.WORK_AREAS.*1) →
  let site := JobSiteSerializer.set_attrs instance v in
  JobSite.site_type site ∈ JobSite.SITE_TYPES.*1
  ∧ JobSite.country site ∈ JobSite.COUNTRIES.*1
  ∧ JobSite.language site ∈ JobSite.LANGUAGES.*1
  ∧ JobSite.work_area site ∈ JobSite.WORK_AREAS.*1.
Proof.
  unfold JobSiteSerializer.run_validation. cbv zeta.
  destruct (concat _) eqn:E; [|discriminate]. intros [= <-] Hcase.
  cbn [concat] in E.
  apply app_eq_nil in E as [_ E]. apply app_eq_nil in E as [_ E].
  apply app_eq_nil in E as [E1 E]. apply app_eq_nil in E as [E2 E].
  apply app_eq_nil in E as [E3 E]. apply app_eq_nil in E as [E4 _].
  cbn. split_and!; eapply default_choice;
    (destruct Hcase as [->|(? & ? & ? & ?)]; [left; by eauto|by right]).
Qed.

Lemma JobApplication_set_attrs_choices partial data db v instance :
  JobApplicationSerializer.run_validation partial data db = inr v →
  JobApplication.status instance ∈ JobApplication.STATUS_CHOICES.*1 →
  JobApplication.status (JobApplicationSerializer.set_attrs instance v)
  ∈ JobApplication.STATUS_CHOICES.*1.
Proof.
  unfold JobApplicationSerializer.run_validation. cbv zeta.
  destruct (concat _) eqn:E; [|discriminate]. intros [= <-] Hold.
  unfold JobApplicationSerializer.set_attrs.
  cbn [JobApplication.status JobApplicationData.status].
  eapply (default_choice _ _ _ _ _ "status"). by right.
Qed.

Lemma ApplicationTimeline_set_attrs_choices partial data db v instance :
  ApplicationTimelineSerializer.run_validation partial data db = inr v →
  partial = false
  ∨ ApplicationTimeline.event_type instance ∈ ApplicationTimeline.EVENT_TYPES.*1 →
  ApplicationTimeline.event_type
    (ApplicationTimelineSerializer.set_attrs instance v)
  ∈ ApplicationTimeline.EVENT_TYPES.*1.
Proof.
  unfold ApplicationTimelineSerializer.run_validation. cbv zeta.
  destruct (concat _) eqn:E; [|discriminate]. intros [= <-] Hcase.
  cbn [concat] in E.
  apply app_eq_nil in E as [_ E]. apply app_eq_nil in E as [E1 _].
  unfold ApplicationTimelineSerializer.set_attrs.
  cbn [ApplicationTimeline.event_type ApplicationTimelineData.event_type].
  eapply default_choice.
  destruct Hcase as [->|?]; [left; by eauto|by right].
Qed.

Lemma default_status_is_a_choice :
  JobApplication.status JobApplication.defaults ∈ JobApplication.STATUS_CHOICES.*1.
Proof. cbn. set_solver. Qed.

Lemma map_Forall_difference {A} (P : Z → A → Prop) (m del : gmap Z A) :
  map_Forall P m → map_Forall P (m ∖ del).
Proof. intros Hm k x [Hk _]%lookup_difference_Some. by apply Hm. Qed.

Lemma serve_choices_valid db req : choices_valid db → choices_valid (serve db req).
Proof.
  intros (Hsites & Happs & Hevents). destruct req as [now req].
  destruct req; serve_cases; try done.
  all: unfold choices_valid; cbn; split_and!; try done.
  all: try (by apply map_Forall_difference).
  all: apply map_Forall_insert_2; [|done].
  all: try match goal with
    | Hl : job_sites _ !! ?pk = Some ?i |- _ =>
        first
          [ exact (Hsites pk i Hl)
          | match goal with
            | Hv : JobSiteSerializer.run_validation ?p _ = inr ?v |- _ =>
                exact (JobSite_set_attrs_choices p _ v i Hv
                         (or_intror (Hsites pk i Hl)))
            end ]
    | Hl : job_applications _ !! ?pk = Some ?i |- _ =>
        first
          [ exact (Happs pk i Hl)
          | match goal with
            | Hv : JobApplicationSerializer.run_validation ?p _ _ = inr ?v |- _ =>
                exact (JobApplication_set_attrs_choices p _ _ v i Hv
                         (Happs pk i Hl))
            end ]
    | Hl : application_timelines _ !! ?pk = Some ?i |- _ =>
        match goal with
        | Hv : ApplicationTimelineSerializer.run_validation ?p _ _ = inr ?v
          |- _ =>
            exact (ApplicationTimeline_set_attrs_choices p _ _ v i Hv
                     (or_intror (Hevents pk i Hl)))
        end
    end.
  - match goal with
    | Hv : JobSiteSerializer.run_validation false _ = inr ?v |- _ =>
        exact (JobSite_set_attrs_choices false _ v JobSite.defaults Hv
                 (or_introl eq_refl))
    end.
  - match goal with
    | Hv : JobApplicationSerializer.run_validation false _ _ = inr ?v |- _ =>
        exact (JobApplication_set_attrs_choices false _ _ v JobApplication.defaults
                 Hv default_status_is_a_choice)
    end.
  - match goal with
    | Hv : ApplicationTimelineSerializer.run_validation false _ _ = inr ?v |- _ =>
        exact (ApplicationTimeline_set_attrs_choices false _ _ v
                 ApplicationTimeline.defaults Hv (or_introl eq_refl))
    end.
Qed.
End choices.

(** X17. The API never stores a value outside a field's [choices]: from
    a database in which every [site_type], [country], [language],
    [work_area], [status] and [event_type] is one of the listed choices,
    such as the empty one, every sequence of requests leads to a database
    with the same property. *)
Theorem requests_keep_choices `{!RestFramework}
    (db : DB) (reqs : list (datetime * Request)) :
  choices_valid db → choices_valid (serve_all db reqs).
Proof.
  revert db. induction reqs as [|req reqs IH]; intros db Hdb; [done|].
  cbn. by apply IH, serve_choices_valid.
Qed.

Lemma requests_keep_choices_witness :
  choices_valid empty_db
  ∧ choices_valid
      (serve_all (H := plain_text_fields) empty_db
         [(100, POST_job_sites acme_boards_data);
          (200, POST_applications backend_engineer_data)]).
Proof.
  assert (choices_valid empty_db) as Hempty
    by (apply (bool_decide_unpack _); vm_compute; exact I).
  split; [exact Hempty|].
  exact (requests_keep_choices (H := plain_text_fields) empty_db _ Hempty).
Defined.

(** ** Creation stamps *)

Section stamps.
Context `{!RestFramework}.
Implicit Types (db : DB) (pk : Z).

Lemma keeps_stamps_refl db : keeps_stamps db db.
Proof. split; intros k x Hk; left; eauto. Qed.

Lemma keeps_stamps_tables db db' :
  job_sites db' = job_sites db → job_applications db' = job_applications db →
  keeps_stamps db db'.
Proof. intros Hs Ha. split; intros k x Hk; left; rewrite <-?Hs, <-?Ha; eauto. Qed.

Lemma keeps_stamps_shrink db db' :
  job_sites db' ⊆ job_sites db → job_applications db' ⊆ job_applications db →
  keeps_stamps db db'.
Proof.
  intros Hs Ha. split; intros k x Hk; left; exists x; split; try done;
    by eapply lookup_weaken.
Qed.

Lemma keeps_stamps_save_site db now pk site site' :
  job_sites db !! pk = Some site →
  JobSite.created_at site' = JobSite.created_at site →
  keeps_stamps db (JobSite_save now pk site' db).2.
Proof.
  intros Hsite Hstamp. split; cbn; [|intros k x Hk; left; eauto].
  intros k s' Hk. left. destruct (decide (k = pk)) as [->|Hne].
  - rewrite lookup_insert_eq in Hk. injection Hk as <-. eauto.
  - rewrite lookup_insert_ne in Hk by done. eauto.
Qed.

Lemma keeps_stamps_save_application db pk a a' :
  job_applications db !! pk = Some a →
  JobApplication.applied_date a' = JobApplication.applied_date a →
  keeps_stamps db (JobApplication_save pk a' db).2.
Proof.
  intros Ha Hstamp. split; cbn; [intros k x Hk; left; eauto|].
  intros k x Hk. left. destruct (decide (k = pk)) as [->|Hne].
  - rewrite lookup_insert_eq in Hk. injection Hk as <-. eauto.
  - rewrite lookup_insert_ne in Hk by done. eauto.
Qed.

Lemma keeps_stamps_create_site db now site :
  keeps_stamps db (JobSite_create now site db).2.
Proof.
  split; cbn; [|intros k x Hk; left; eauto].
  intros k s' Hk. destruct (decide (k = seq_job_site db + 1)) as [->|Hne].
  - right. lia.
  - left. rewrite lookup_insert_ne in Hk by done. eauto.
Qed.

Lemma keeps_stamps_create_application db now a :
  keeps_stamps db (JobApplication_create now a db).2.
Proof.
  split; cbn; [intros k x Hk; left; eauto|].
  intros k x Hk. destruct (decide (k = seq_job_application db + 1)) as [->|Hne].
  - right. lia.
  - left. rewrite lookup_insert_ne in Hk by done. eauto.
Qed.

Lemma serve_keeps_stamps db req : keeps_stamps db (serve db req).
Proof.
  destruct req as [now req]. destruct req; serve_cases;
    try apply keeps_stamps_refl.
  all: try first
    [ apply keeps_stamps_create_site | apply keeps_stamps_create_application
    | by eapply keeps_stamps_save_site | by eapply keeps_stamps_save_application
    | by apply keeps_stamps_tables
    | apply keeps_stamps_shrink; cbn;
      first [done | by apply map_subseteq_difference_l] ].
Qed.

Lemma serve_all_stamps db reqs :
  sequences_valid db →
  (∀ pk (d : datetime),
     pk ≤ seq_job_site db →
     (∀ s, job_sites db !! pk = Some s → JobSite.created_at s = d) →
     ∀ s', job_sites (serve_all db reqs) !! pk = Some s' →
           JobSite.created_at s' = d)
  ∧ (∀ pk (d : datetime),
       pk ≤ seq_job_application db →
       (∀ a, job_applications db !! pk = Some a → JobApplication.applied_date a = d) →
       ∀ a', job_applications (serve_all db reqs) !! pk = Some a' →
             JobApplication.applied_date a' = d).
Proof.
  revert db. induction reqs as [|req reqs IH]; intros db Hvalid.
  { split; intros pk d _ Hd; exact Hd. }
  pose proof (serve_evolves db req) as (Hseq_s & Hseq_a & _).
  pose proof (serve_keeps_stamps db req) as [Hsites Happs].
  destruct (IH (serve db req) (serve_sequences_valid db req Hvalid))
    as [IHs IHa].
  split; intros pk d Hpk Hd x Hx; cbn in Hx.
  - apply (IHs pk d); [lia| |done]. intros s Hs.
    destruct (Hsites pk s Hs) as [(s0 & Hs0 & ->)|?]; [by apply Hd|lia].
  - apply (IHa pk d); [lia| |done]. intros a Ha.
    destruct (Happs pk a Ha) as [(a0 & Ha0 & ->)|?]; [by apply Hd|lia].
Qed.
End stamps.

(** X18. The stamps set at creation stay for good: whatever requests are
    served, a site that is still in its table carries the [created_at] it
    had and an application the [applied_date] it had.  Both fields are
    [auto_now_add], so no request body can reach them. *)
Theorem creation_stamps_immutable `{!RestFramework}
    (db : DB) (reqs : list (datetime * Request)) (pk : Z) :
  sequences_valid db →
  (∀ s s', job_sites db !! pk = Some s →
           job_sites (serve_all db reqs) !! pk = Some s' →
           JobSite.created_at s' = JobSite.created_at s)
  ∧ (∀ a a', job_applications db !! pk = Some a →
             job_applications (serve_all db reqs) !! pk = Some a' →
             JobApplication.applied_date a' = JobApplication.applied_date a).
Proof.
  intros Hvalid. destruct (serve_all_stamps db reqs Hvalid) as [Hs Ha].
  destruct Hvalid as (Vs & Va & _). split.
  - intros s s' Hin Hout. apply (Hs pk (JobSite.created_at s)); [|congruence|done].
    exact (Vs pk s Hin).
  - intros a a' Hin Hout.
    apply (Ha pk (JobApplication.applied_date a)); [|congruence|done].
    exact (Va pk a Hin).
Qed.

Lemma creation_stamps_immutable_witness :
  sequences_valid acme_db
  ∧ job_sites acme_db !! 1 = Some acme_boards
  ∧ ∃ s', job_sites
            (serve_all (H := plain_text_fields) acme_db
               [(500, POST_job_site_mark_visited 1);
                (600, PATCH_job_site 1 JobSiteData.empty)]) !! 1 = Some s'
      ∧ JobSite.updated_at s' = 600
      ∧ JobSite.created_at s' = JobSite.created_at acme_boards.
Proof.
  assert (sequences_valid acme_db) as Hvalid
    by (apply (bool_decide_unpack _); vm_compute; exact I).
  split; [exact Hvalid|]. split; [reflexivity|].
  eexists. split; [vm_compute; reflexivity|]. split; [reflexivity|].
  eapply (proj1 (creation_stamps_immutable (H := plain_text_fields) acme_db
                   [(500, POST_job_site_mark_visited 1);
                    (600, PATCH_job_site 1 JobSiteData.empty)] 1 Hvalid)
            acme_boards); [reflexivity|vm_compute; reflexivity].
Defined.

(** ** A successful create *)

Lemma JobApplication_validated_defaults `{!RestFramework} data db v :
  JobApplicationSerializer.run_validation false data db = inr v →
  (JobApplicationData.status data = None → JobApplicationData.status v = None)
  ∧ (JobApplicationData.is_archived data = None →
     JobApplicationData.is_archived v = None).
Proof.
  unfold JobApplicationSerializer.run_validation. cbv zeta.
  destruct (concat _) eqn:E; [|discriminate]. intros [= <-].
  split; intros Hnone; cbn; by rewrite Hnone.
Qed.

(** X19. When creating an application succeeds, the new row goes under
    the next id of the sequence, which no row was using; its
    [applied_date] is the time of the request, its [job_site] is an
    existing site, and [status] and [is_archived] take their defaults
    ("applied", False) when the body leaves them out.  Every other row of
    every table stays as it was. *)
Theorem create_application_stores `{!RestFramework}
    (now : datetime) (data : JobApplicationData.t) (db db' : DB)
    (r : JobApplicationSerializer.representation) :
  sequences_valid db →
  JobApplicationViewSet.create now data db = (Ok r, db') →
  let pk := seq_job_application db + 1 in
  JobApplicationSerializer.id r = pk
  ∧ seq_job_application db' = pk
  ∧ job_applications db !! pk = None
  ∧ (∃ a, job_applications db' !! pk = Some a
          ∧ r = JobApplicationSerializer.to_representation db' (pk, a)
          ∧ JobApplication.applied_date a = now
          ∧ is_Some (job_sites db !! JobApplication.job_site a)
          ∧ (JobApplicationData.status data = None →
             JobApplication.status a = "applied")
          ∧ (JobApplicationData.is_archived data = None →
             JobApplication.is_archived a = false))
  ∧ (∀ k, k ≠ pk → job_applications db' !! k = job_applications db !! k)
  ∧ job_sites db' = job_sites db
  ∧ application_timelines db' = application_timelines db.
Proof.
  intros (_ & Va & _).
  unfold JobApplicationViewSet.create, mbind, View_bind, is_valid, query.
  destruct (JobApplicationSerializer.run_validation false data db) as [errs|v]
    eqn:Hv; [discriminate|].
  cbn. intros [= <- <-]. cbn. split_and!; try done.
  - destruct (job_applications db !! (seq_job_application db + 1)) as [a|] eqn:Ha;
      [|done].
    specialize (Va _ _ Ha). cbn in Va. lia.
  - eexists. split; [apply lookup_insert_eq|]. split; [done|]. split; [done|].
    cbn. split; [|split].
    + apply (set_attrs_job_site_valid false data db v JobApplication.defaults Hv).
      by left.
    + intros Hnone.
      by rewrite (proj1 (JobApplication_validated_defaults data db v Hv) Hnone).
    + intros Hnone.
      by rewrite (proj2 (JobApplication_validated_defaults data db v Hv) Hnone).
  - intros k Hk. by rewrite lookup_insert_ne.
Qed.

Lemma create_application_stores_witness :
  sequences_valid acme_db
  ∧ ∃ r db',
      JobApplicationViewSet.create (H := plain_text_fields) 700
        backend_engineer_data acme_db = (Ok r, db')
      ∧ JobApplicationSerializer.id r = 2
      ∧ job_applications acme_db !! 2 = None.
Proof.
  assert (sequences_valid acme_db) as Hvalid
    by (apply (bool_decide_unpack _); vm_compute; exact I).
  split; [exact Hvalid|].
  destruct (JobApplicationViewSet.create (H := plain_text_fields) 700
              backend_engineer_data acme_db) as [[r|e] db'] eqn:Hrun;
    [|vm_compute in Hrun; discriminate Hrun].
  exists r, db'. split; [reflexivity|].
  destruct (create_application_stores (H := plain_text_fields) 700
              backend_engineer_data acme_db db' r Hvalid Hrun)
    as (Hid & _ & Hfresh & _).
  split; [exact Hid|exact Hfresh].
Defined.

(** ** What a cascade takes away *)

(** X20. [applications_count] announces what a delete will cascade to:
    deleting an existing site shrinks the application table by exactly the
    [applications_count] its representation showed. *)
Theorem destroy_site_removes_counted (db : DB) (pk : Z) (site : JobSite.t) :
  job_sites db !! pk = Some site →
  Z.of_nat (size (job_applications (JobSiteViewSet.destroy pk db).2))
  = Z.of_nat (size (job_applications db))
    - JobSiteSerializer.applications_count
        (JobSiteSerializer.to_representation db (pk, site)).
Proof.
  intros Hsite.
  unfold JobSiteViewSet.destroy, mbind, View_bind, get_object.
  rewrite Hsite. cbn.
  unfold JobSiteSerializer.get_applications_count. cbn.
  rewrite JobSite_applications_count.
  assert (collect_applications {[pk := site]} db
          = filter (λ r, JobApplication.job_site r.2 = pk) (job_applications db))
    as ->.
  { unfold collect_applications. apply map_filter_ext. intros k a _. cbn.
    split.
    - intros [s [Hk _]%lookup_singleton_Some]. done.
    - intros ->. rewrite lookup_singleton_eq. eauto. }
  set (gone := filter (λ r, JobApplication.job_site r.2 = pk) (job_applications db)).
  assert (gone ⊆ job_applications db) as Hsub by apply map_filter_subseteq.
  rewrite <-(map_difference_union gone (job_applications db) Hsub) at 2.
  rewrite map_size_disj_union by by apply map_disjoint_difference_r1.
  lia.
Qed.

Lemma destroy_site_removes_counted_witness :
  job_sites acme_db !! 1 = Some acme_boards
  ∧ Z.of_nat (size (job_applications (JobSiteViewSet.destroy 1 acme_db).2))
    = Z.of_nat (size (job_applications acme_db))
      - JobSiteSerializer.applications_count
          (JobSiteSerializer.to_representation acme_db (1, acme_boards)).
Proof.
  split; [reflexivity|].
  exact (destroy_site_removes_counted acme_db 1 acme_boards eq_refl).
Defined.

(** ** Updates stay within their row *)

(** X21. Whatever the body and whatever the outcome, update and
    partial_update addressed to a row [pk] of one table leave every other
    row of that table and both other tables as they were. *)
Theorem update_touches_one_row `{!RestFramework}
    (partial : bool) (now : datetime) (pk : Z) (db : DB) :
  (∀ data, only_site_differs pk db
             (JobSiteViewSet.update partial now pk data db).2)
  ∧ (∀ data, only_application_differs pk db
               (JobApplicationViewSet.update partial pk data db).2)
  ∧ (∀ data, only_event_differs pk db
               (ApplicationTimelineViewSet.update partial pk data db).2).
Proof.
  split_and!; intros data.
  - unfold JobSiteViewSet.update, mbind, View_bind, get_object, is_valid, query,
      JobSite_save.
    repeat case_match; simplify_eq/=;
      first [ apply only_site_differs_insert
            | split_and!; done ].
  - unfold JobApplicationViewSet.update, mbind, View_bind, get_object, is_valid,
      query, JobApplication_save.
    repeat case_match; simplify_eq/=;
      first [ apply only_application_differs_insert
            | split_and!; done ].
  - unfold ApplicationTimelineViewSet.update, mbind, View_bind, get_object,
      is_valid, mret, View_ret, ApplicationTimeline_save.
    repeat case_match; simplify_eq/=; (split_and!; [done..|]);
      intros k Hk; cbn; by rewrite ?lookup_insert_ne.
Qed.

(** ** Listing by pages *)

Section pages.
Context {A : Type}.
Implicit Types (qs : list A) (n : Z) (db : DB).

Lemma num_pages_ge_1 total : 0 ≤ total → 1 ≤ PageNumberPagination.num_pages total.
Proof.
  intros Htotal. unfold PageNumberPagination.num_pages, PageNumberPagination.PAGE_SIZE.
  apply (Z.div_le_lower_bound _ 20 1); lia.
Qed.

Lemma paginate_out_of_range n qs db :
  n < 1 ∨ PageNumberPagination.num_pages (Z.of_nat (length qs)) < n →
  PageNumberPagination.paginate_queryset (PageNumberPagination.page_number n) qs db
  = (Raise Http404, db).
Proof.
  intros Hn. unfold PageNumberPagination.paginate_queryset. cbv zeta.
  by rewrite decide_True.
Qed.

Lemma paginate_in_range n qs db :
  1 ≤ n ≤ PageNumberPagination.num_pages (Z.of_nat (length qs)) →
  ∃ page,
    PageNumberPagination.paginate_queryset (PageNumberPagination.page_number n)
      qs db = (Ok page, db)
    ∧ PageNumberPagination.count page = Z.of_nat (length qs)
    ∧ PageNumberPagination.results page
      = take 20 (drop (Z.to_nat ((n - 1) * 20)) qs).
Proof.
  intros Hn. unfold PageNumberPagination.paginate_queryset. cbv zeta.
  rewrite decide_False by lia. eexists. split; [reflexivity|]. done.
Qed.

Lemma page_of_index qs (i : nat) x :
  qs !! i = Some x →
  let n := Z.of_nat i / 20 + 1 in
  1 ≤ n ≤ PageNumberPagination.num_pages (Z.of_nat (length qs))
  ∧ x ∈ take 20 (drop (Z.to_nat ((n - 1) * 20)) qs).
Proof.
  intros Hi. cbn zeta. apply lookup_lt_Some in Hi as Hlen.
  pose proof (Z.div_mod (Z.of_nat i) 20 ltac:(lia)) as Hdm.
  pose proof (Z.mod_pos_bound (Z.of_nat i) 20 ltac:(lia)) as Hmod.
  assert (0 ≤ Z.of_nat i / 20) as Hq by (apply Z.div_pos; lia).
  split.
  - split; [lia|].
    unfold PageNumberPagination.num_pages, PageNumberPagination.PAGE_SIZE.
    replace (Z.of_nat i / 20 + 1) with ((Z.of_nat i + 1 * 20) / 20)
      by (rewrite Z.div_add by lia; lia).
    apply Z.div_le_mono; lia.
  - apply (list_elem_of_lookup_2 _ (Z.to_nat (Z.of_nat i `mod` 20))).
    rewrite lookup_take_lt by lia. rewrite lookup_drop.
    replace (Z.to_nat ((Z.of_nat i / 20 + 1 - 1) * 20)
             + Z.to_nat (Z.of_nat i `mod` 20))%nat with i by lia.
    done.
Qed.

Lemma StronglySorted_page (R : relation A) qs (b : nat) :
  StronglySorted R qs → StronglySorted R (take 20 (drop b qs)).
Proof.
  intros Hqs.
  rewrite <-(take_drop b qs) in Hqs. apply StronglySorted_app_1_r in Hqs.
  rewrite <-(take_drop 20 (drop b qs)) in Hqs.
  by apply StronglySorted_app_1_l in Hqs.
Qed.

Lemma elem_of_page qs (b : nat) x : x ∈ take 20 (drop b qs) → x ∈ qs.
Proof.
  intros Hx. rewrite <-(take_drop b qs). apply elem_of_app. right.
  rewrite <-(take_drop 20 (drop b qs)). apply elem_of_app. by left.
Qed.
End pages.

(** X22. The site listing comes in pages of at most 20, each in
    descending order of [created_at] and made of representations of stored
    sites; there is always a page 1, a missing [page] parameter means page
    1, and every stored site is on one of the pages 1 to [num_pages]. *)
Theorem list_job_sites_pages (db : DB) :
  let last := PageNumberPagination.num_pages (Z.of_nat (size (job_sites db))) in
  1 ≤ last
  ∧ list_job_sites PageNumberPagination.page_absent db
    = list_job_sites (PageNumberPagination.page_number 1) db
  ∧ (∀ n, 1 ≤ n ≤ last →
       ∃ page, list_job_sites (PageNumberPagination.page_number n) db = (Ok page, db)
         ∧ PageNumberPagination.count page = Z.of_nat (size (job_sites db))
         ∧ (length (PageNumberPagination.results page) ≤ 20)%nat
         ∧ StronglySorted
             (λ r1 r2, JobSiteSerializer.created_at r2 ≤ JobSiteSerializer.created_at r1)
             (PageNumberPagination.results page)
         ∧ ∀ r, r ∈ PageNumberPagination.results page →
                ∃ pk site, job_sites db !! pk = Some site
                           ∧ r = JobSiteSerializer.to_representation db (pk, site))
  ∧ (∀ pk site, job_sites db !! pk = Some site →
       ∃ n page, 1 ≤ n ≤ last
         ∧ list_job_sites (PageNumberPagination.page_number n) db = (Ok page, db)
         ∧ JobSiteSerializer.to_representation db (pk, site)
           ∈ PageNumberPagination.results page).
Proof.
  cbn zeta.
  set (qs := order_by_desc (λ r : Z * JobSite.t, JobSite.created_at r.2)
               (objects_all (job_sites db))).
  assert (length qs = size (job_sites db)) as Hlen.
  { unfold qs. rewrite order_by_desc_perm. apply length_map_to_list. }
  assert (∀ n, list_job_sites (PageNumberPagination.page_number n) db
               = match PageNumberPagination.paginate_queryset
                         (PageNumberPagination.page_number n) qs db with
                 | (Ok page, db') =>
                     (Ok (PageNumberPagination.serialize
                            (JobSiteSerializer.to_representation db') page), db')
                 | (Raise e, db') => (Raise e, db')
                 end) as Hlist by reflexivity.
  split_and!.
  - apply num_pages_ge_1. lia.
  - reflexivity.
  - intros n Hn. rewrite <-Hlen in Hn.
    destruct (paginate_in_range n qs db Hn) as (page & Hrun & Hcount & Hres).
    eexists. split; [by rewrite Hlist, Hrun|]. cbn. split_and!.
    + by rewrite Hcount, Hlen.
    + rewrite length_fmap, Hres, length_take. lia.
    + rewrite Hres. eapply StronglySorted_fmap;
        [|apply StronglySorted_page, order_by_desc_sorted].
      intros x y Hxy. exact Hxy.
    + intros r ([pk site] & -> & Hin)%list_elem_of_fmap.
      rewrite Hres in Hin. apply elem_of_page in Hin.
      apply order_by_desc_elem, objects_all_lookup in Hin. eauto.
  - intros pk site Hsite.
    assert ((pk, site) ∈ qs) as [i Hi]%list_elem_of_lookup_1
      by by apply order_by_desc_elem, objects_all_lookup.
    destruct (page_of_index qs i _ Hi) as [Hn Hin].
    destruct (paginate_in_range _ qs db Hn) as (page & Hrun & Hcount & Hres).
    exists (Z.of_nat i / 20 + 1), (PageNumberPagination.serialize
              (JobSiteSerializer.to_representation db) page).
    split; [by rewrite <-Hlen|]. split; [by rewrite Hlist, Hrun|].
    cbn. apply list_elem_of_fmap_2. by rewrite Hres.
Qed.

Lemma list_job_sites_pages_witness :
  job_sites acme_db !! 1 = Some acme_boards
  ∧ ∃ n page,
      list_job_sites (PageNumberPagination.page_number n) acme_db = (Ok page, acme_db)
      ∧ JobSiteSerializer.to_representation acme_db (1, acme_boards)
        ∈ PageNumberPagination.results page.
Proof.
  split; [reflexivity|].
  destruct (list_job_sites_pages acme_db) as (_ & _ & _ & Hcover).
  destruct (Hcover 1 acme_boards) as (n & page & _ & Hrun & Hin); [reflexivity|].
  exists n, page. split; [exact Hrun|exact Hin].
Defined.

(** X23. A page that does not exist is a 404: the three list actions
    answer a [page] number below 1 or beyond [num_pages], and a [page]
    parameter that is neither a number nor [last], with [Http404], and
    leave the database as it was. *)
Theorem list_page_out_of_range (db : DB) (n : Z) :
  (n < 1 ∨ PageNumberPagination.num_pages (Z.of_nat (size (job_sites db))) < n →
   list_job_sites (PageNumberPagination.page_number n) db = (Raise Http404, db))
  ∧ (n < 1
     ∨ PageNumberPagination.num_pages (Z.of_nat (size (job_applications db))) < n →
     list_applications (PageNumberPagination.page_number n) db
     = (Raise Http404, db))
  ∧ (n < 1
     ∨ PageNumberPagination.num_pages
         (Z.of_nat (size (application_timelines db))) < n →
     list_timeline (PageNumberPagination.page_number n) db = (Raise Http404, db))
  ∧ list_job_sites PageNumberPagination.page_other db = (Raise Http404, db)
  ∧ list_applications PageNumberPagination.page_other db = (Raise Http404, db)
  ∧ list_timeline PageNumberPagination.page_other db = (Raise Http404, db).
Proof.
  split_and!; try reflexivity; intros Hn.
  - unfold list_job_sites, mbind, View_bind, query.
    rewrite paginate_out_of_range; [done|].
    unfold objects_all. by rewrite order_by_desc_perm, length_map_to_list.
  - unfold list_applications, mbind, View_bind, query.
    rewrite paginate_out_of_range; [done|].
    unfold objects_all. by rewrite order_by_desc_perm, length_map_to_list.
  - unfold list_timeline, mbind, View_bind, query.
    rewrite paginate_out_of_range; [done|].
    unfold objects_all. by rewrite order_by_desc_perm, length_map_to_list.
Qed.

Lemma list_page_out_of_range_witness :
  PageNumberPagination.num_pages (Z.of_nat (size (job_sites acme_db))) < 2
  ∧ list_job_sites (PageNumberPagination.page_number 2) acme_db
    = (Raise Http404, acme_db).
Proof.
  assert (PageNumberPagination.num_pages (Z.of_nat (size (job_sites acme_db))) < 2)
    as Hlast by (vm_compute; reflexivity).
  split; [exact Hlast|].
  destruct (list_page_out_of_range acme_db 2) as (Hsites & _).
  apply Hsites. right. exact Hlast.
Defined.

(** ** Ids are not handed out twice *)

Lemma serve_all_absent `{!RestFramework} (reqs : list (datetime * Request)) :
  ∀ db pk,
    (pk ≤ seq_job_site db → job_sites db !! pk = None →
     job_sites (serve_all db reqs) !! pk = None)
    ∧ (pk ≤ seq_job_application db → job_applications db !! pk = None →
       job_applications (serve_all db reqs) !! pk = None)
    ∧ (pk ≤ seq_application_timeline db → application_timelines db !! pk = None →
       application_timelines (serve_all db reqs) !! pk = None).
Proof.
  induction reqs as [|req reqs IH]; intros db pk; [done|]. cbn.
  destruct (serve_evolves db req) as (Hs & Ha & Ht & Hsites & Happs & Hevents).
  destruct (IH (serve db req) pk) as (IHs & IHa & IHt).
  split_and!; intros Hpk Hnone.
  - apply IHs; [lia|]. apply eq_None_not_Some. intros Hsome.
    destruct (Hsites pk Hsome) as [[x Hx]|?]; [congruence|lia].
  - apply IHa; [lia|]. apply eq_None_not_Some. intros Hsome.
    destruct (Happs pk Hsome) as [[x Hx]|?]; [congruence|lia].
  - apply IHt; [lia|]. apply eq_None_not_Some. intros [e He].
    destruct (Hevents pk e He) as [(x & Hx & _)|?]; [congruence|lia].
Qed.

(** X24. An id is handed out once: after a row has been deleted, no
    sequence of requests brings a row back under its id, in any of the
    three tables, because a create always draws the next value of the
    table's sequence. *)
Theorem deleted_rows_stay_deleted `{!RestFramework}
    (db : DB) (now : datetime) (pk : Z) (reqs : list (datetime * Request)) :
  sequences_valid db →
  (is_Some (job_sites db !! pk) →
   job_sites (serve_all db ((now, DELETE_job_site pk) :: reqs)) !! pk = None)
  ∧ (is_Some (job_applications db !! pk) →
     job_applications (serve_all db ((now, DELETE_application pk) :: reqs)) !! pk
     = None)
  ∧ (is_Some (application_timelines db !! pk) →
     application_timelines (serve_all db ((now, DELETE_timeline pk) :: reqs)) !! pk
     = None).
Proof.
  intros (Vs & Va & Vt). cbn [serve_all foldl].
  split_and!; intros [x Hx].
  - destruct (serve_evolves db (now, DELETE_job_site pk)) as (Hseq & _).
    apply serve_all_absent; [specialize (Vs pk x Hx); cbn in Vs; lia|].
    unfold serve, dispatch, JobSiteViewSet.destroy, mbind, View_bind, get_object.
    cbn. rewrite Hx. cbn.
    apply lookup_difference_None. right. rewrite lookup_singleton_eq. eauto.
  - destruct (serve_evolves db (now, DELETE_application pk)) as (_ & Hseq & _).
    apply serve_all_absent; [specialize (Va pk x Hx); cbn in Va; lia|].
    unfold serve, dispatch, JobApplicationViewSet.destroy, mbind, View_bind,
      get_object.
    cbn. rewrite Hx. cbn.
    apply lookup_difference_None. right. rewrite lookup_singleton_eq. eauto.
  - destruct (serve_evolves db (now, DELETE_timeline pk)) as (_ & _ & Hseq & _).
    apply serve_all_absent; [specialize (Vt pk x Hx); cbn in Vt; lia|].
    unfold serve, dispatch, ApplicationTimelineViewSet.destroy, mbind, View_bind,
      get_object.
    cbn. rewrite Hx. cbn.
    apply lookup_difference_None. right. rewrite lookup_singleton_eq. eauto.
Qed.

Lemma deleted_rows_stay_deleted_witness :
  sequences_valid acme_db
  ∧ is_Some (job_applications acme_db !! 1)
  ∧ job_applications
      (serve_all (H := plain_text_fields) acme_db
         [(500, DELETE_application 1);
          (600, POST_applications backend_engineer_data)]) !! 1 = None
  ∧ is_Some (job_applications
               (serve_all (H := plain_text_fields) acme_db
                  [(500, DELETE_application 1);
                   (600, POST_applications backend_engineer_data)]) !! 2).
Proof.
  assert (sequences_valid acme_db) as Hvalid
    by (apply (bool_decide_unpack _); vm_compute; exact I).
  split; [exact Hvalid|]. split; [by eexists|]. split.
  - destruct (deleted_rows_stay_deleted (H := plain_text_fields) acme_db 500 1
                [(600, POST_applications backend_engineer_data)] Hvalid)
      as (_ & Happ & _).
    apply Happ. by eexists.
  - vm_compute. by eexists.
Defined.
